(** * reagraph: GraphRenderer and camera Controls

    A shallow embedding of the two view-layer components of the
    repository:

    - [src/GraphRenderer.tsx]: the component that turns the graph's nodes
      and edges into scene elements and exposes the [centerGraph] handle;
    - the [Controls] component: the camera bindings (pan, zoom, rotate),
      the keyboard wiring and the imperative handle handed to the host.

    The components are glue over external collaborators (three.js,
    camera-controls, hold-event, reakeys, React).  Every call that leaves
    the repository is recorded in a call log carried by the [World]; the
    state the components read and write themselves (the camera ref, the
    left mouse button binding, the listener tables) is explicit state.
    JavaScript numbers are IEEE binary64, the kernel's primitive floats. *)

From Stdlib Require Import List String Bool PrimFloat Lia.
Import ListNotations.

#[local] Set Warnings "-inexact-float".

Open Scope string_scope.
Open Scope list_scope.

(* ------------------------------------------------------------------ *)
(** * JavaScript completions, errors and the component monad           *)
(* ------------------------------------------------------------------ *)

Module Js.

(** The two kinds of exception the components can raise: an explicit
    [new Error(message)] and the [TypeError] of a property access on
    [null]. *)
Inductive JsError : Type :=
| Error (message : string)
| TypeError (message : string).

(** A statement either completes normally with a value or throws. *)
Inductive Completion (A : Type) : Type :=
| Normal (a : A)
| Throw (e : JsError).

Arguments Normal {A} a.
Arguments Throw {A} e.

(** [Array.prototype.reduce] with a callback that may throw: the fold runs
    left to right and the first exception aborts it. *)
Fixpoint reduce {A B : Type} (f : B -> A -> Completion B)
    (l : list A) (acc : B) : Completion B :=
  match l with
  | [] => Normal acc
  | x :: rest =>
      match f acc x with
      | Normal acc' => reduce f rest acc'
      | Throw e => Throw e
      end
  end.

(** A template literal with one substitution between two fixed parts. *)
Definition template (before subst after : string) : string :=
  (before ++ subst ++ after)%string.

End Js.

Export Js.

(* ------------------------------------------------------------------ *)
(** * Graph data                                                        *)
(* ------------------------------------------------------------------ *)

(** [GraphNode] and [GraphEdge] come from [./types]; the components only
    read [id] and pass every other field along untouched, so the remaining
    fields are kept as one list of named values. *)
Record GraphNode : Type := mkGraphNode {
  node_id : string;
  node_fields : list (string * string)
}.

Record GraphEdge : Type := mkGraphEdge {
  edge_id : string;
  edge_fields : list (string * string)
}.

(** The variable [nodesToCenter] is declared as [string[]] but is
    reassigned to the array of node objects built by the reduction, so an
    array reaching [centerNodes] is of one of two shapes. *)
Inductive Arr : Type :=
| Ids (ids : list string)
| Nodes (ns : list GraphNode).

(* ------------------------------------------------------------------ *)
(** * The world: camera ref, listener tables, log of outgoing calls     *)
(* ------------------------------------------------------------------ *)

(** [CameraControls.ACTION]. *)
Inductive ACTION : Type :=
| NONE | ROTATE | TRUCK | OFFSET | DOLLY | ZOOM.

Record MouseButtons : Type := mkMouseButtons {
  left : ACTION;
  middle : ACTION;
  right : ACTION;
  wheel : ACTION
}.

(** The camera-controls instance held by [cameraRef]. *)
Record CameraControls : Type := mkCameraControls {
  mouseButtons : MouseButtons
}.

(** Calls that leave the two components. *)
Inductive Call : Type :=
| CenterNodes (a : Arr)                         (* useCenterGraph's centerNodes *)
| OnNodeClick (id : string)                     (* the host's onNodeClick prop *)
| Update (delta : float)                        (* cameraRef.current.update *)
| Dispose                                       (* cameraRef.current.dispose *)
| Zoom (step : float) (animated : option bool)  (* cameraRef.current.zoom *)
| Truck (x y : float) (animated : option bool)  (* cameraRef.current.truck *)
| Invalidate                                    (* useThree().invalidate *)
| PreventDefault.                               (* event.preventDefault *)

(** Objects listeners are attached to. *)
Inductive Target : Type :=
| LeftKey | RightKey | UpKey | DownKey     (* the module-level KeyboardKeyHold objects *)
| Window
| Camera.                                  (* the instance in cameraRef *)

(** The functions the Controls component registers as listeners.  A
    [useCallback] result keeps its identity as long as its dependencies do,
    so a callback is identified by its name and captured dependencies. *)
Inductive Handler : Type :=
| HPanLeft (animated : option bool)
| HPanRight (animated : option bool)
| HPanUp (animated : option bool)
| HPanDown (animated : option bool)
| HOnKeyDown (mode : option string)
| HOnKeyUp (mode : option string)
| HInvalidate.

Record Listener : Type := mkListener {
  l_target : Target;
  l_type : string;
  l_handler : Handler
}.

Record World : Type := mkWorld {
  cameraRef : option CameraControls;   (* cameraRef.current *)
  listeners : list Listener;
  calls : list Call                    (* oldest first *)
}.

(** Component code: reads and writes the world, completes or throws.  A
    throw keeps whatever was written before it. *)
Definition M (A : Type) : Type := World -> Completion A * World.

Definition ret {A : Type} (a : A) : M A := fun w => (Normal a, w).

Definition throw {A : Type} (e : JsError) : M A := fun w => (Throw e, w).

Definition bind {A B : Type} (c : M A) (k : A -> M B) : M B :=
  fun w =>
    match c w with
    | (Normal a, w') => k a w'
    | (Throw e, w') => (Throw e, w')
    end.

Definition liftC {A : Type} (c : Completion A) : M A := fun w => (c, w).

Declare Scope js_scope.
Delimit Scope js_scope with js.
Notation "x <- c ;; k" := (bind c (fun x => k))
  (at level 61, c at next level, right associativity) : js_scope.
Notation "c ;; k" := (bind c (fun _ => k))
  (at level 61, right associativity) : js_scope.
Open Scope js_scope.

(** The world after one more outgoing call. *)
Definition logged (w : World) (cs : list Call) : World :=
  mkWorld (cameraRef w) (listeners w) (calls w ++ cs).

(** An outgoing call: recorded, and control comes back. *)
Definition call (c : Call) : M unit := fun w => (Normal tt, logged w [c]).

(* ------------------------------------------------------------------ *)
(** * src/GraphRenderer.tsx                                             *)
(* ------------------------------------------------------------------ *)

Module GraphRenderer.

(** A host callback as the component sees it: called with an id, it
    returns or throws. *)
Definition NodeClickCallback : Type := string -> Completion unit.

Section Component.

(** The opaque graph object of [useGraph]. *)
Variable Graph : Type.

(** [const { nodes, edges, graph } = useGraph(rest)]: the hook lives in
    [./utils/graph]; its result is what the component works on. *)
Variable nodes : list GraphNode.
Variable edges : list GraphEdge.
Variable graph : Graph.

(** The [onNodeClick] prop, [None] when the host passed none. *)
Variable onNodeClick : option NodeClickCallback.

(** [const { centerNodes } = useCenterGraph({ nodes })]: the hook lives
    in [./controls/useCenterGraph]; invoking it is an outgoing call. *)
Definition centerNodes (a : Arr) : M unit := call (CenterNodes a).

(** [nodes.find(n => n.id === id)]. *)
Definition findNode (id : string) : option GraphNode :=
  find (fun n => String.eqb (node_id n) id) nodes.

(** The reducer of lines 40-51. *)
Definition collect (acc : list GraphNode) (id : string)
    : Completion (list GraphNode) :=
  match findNode id with
  | Some node => Normal (acc ++ [node])
  | None =>
      Throw (Error (template "Attempted to center " id
                             " but it was not found in the nodes"))
  end.

(** [nodesToCenter?.length] as a condition: [undefined] and [0] are
    falsy. *)
Definition length_truthy (nodesToCenter : option (list string)) : bool :=
  match nodesToCenter with
  | Some (_ :: _) => true
  | _ => false
  end.

(** [a || b] on an optional array: every array object is truthy, also
    the empty one; only [undefined] falls through to [b]. *)
Definition js_or (a : option Arr) (b : Arr) : Arr :=
  match a with
  | Some arr => arr
  | None => b
  end.

(** The [centerGraph] method of the imperative handle. *)
Definition centerGraph (nodesToCenter : option (list string)) : M unit :=
  nodesToCenter' <-
    (if length_truthy nodesToCenter then
       match nodesToCenter with
       | Some ids =>
           mapped <- liftC (reduce collect ids []) ;;
           ret (Some (Nodes mapped))
       | None => ret None
       end
     else ret (option_map Ids nodesToCenter)) ;;
  centerNodes (js_or nodesToCenter' (Nodes nodes)).

(** [onNodeClick?.(n.id)]. *)
Definition callOnNodeClick (id : string) : M unit :=
  match onNodeClick with
  | Some cb => call (OnNodeClick id) ;; liftC (cb id)
  | None => ret tt
  end.

(** The [onClick] closure of the node [n]. *)
Definition nodeOnClick (n : GraphNode) : M unit :=
  callOnNodeClick (node_id n) ;;
  centerNodes (Nodes [n]).

(** The elements of the returned fragment. *)
Inductive Element : Type :=
| NodeElement (key : string) (n : GraphNode) (g : Graph) (onClick : M unit)
| EdgeElement (key : string) (e : GraphEdge).

Definition renderNode (n : GraphNode) : Element :=
  NodeElement (node_id n) n graph (nodeOnClick n).

Definition renderEdge (e : GraphEdge) : Element :=
  EdgeElement (edge_id e) e.

(** The JSX returned by the component. *)
Definition render : list Element :=
  map renderNode nodes ++ map renderEdge edges.

(** A pointer click on an element. *)
Definition click (el : Element) : M unit :=
  match el with
  | NodeElement _ _ _ onClick => onClick
  | EdgeElement _ _ => ret tt
  end.

End Component.

Arguments NodeElement {Graph} key n g onClick.
Arguments EdgeElement {Graph} key e.
Arguments render {Graph} nodes edges graph onNodeClick.
Arguments renderNode {Graph} graph onNodeClick n.
Arguments renderEdge {Graph} e.
Arguments click {Graph} el.

(** [GraphRendererProps]; the string-union option types are kept as
    optional strings. *)
Record GraphRendererProps : Type := mkProps {
  props_layoutType : option string;
  props_nodes : list GraphNode;
  props_edges : list GraphEdge;
  props_sizingType : option string;
  props_labelType : option string;
  props_sizingAttribute : option string;
  props_onNodeClick : option NodeClickCallback
}.

(** [{ onNodeClick, ...rest }]: the props without the click callback. *)
Record RestProps : Type := mkRest {
  rest_layoutType : option string;
  rest_nodes : list GraphNode;
  rest_edges : list GraphEdge;
  rest_sizingType : option string;
  rest_labelType : option string;
  rest_sizingAttribute : option string
}.

Definition rest (p : GraphRendererProps) : RestProps :=
  mkRest (props_layoutType p) (props_nodes p) (props_edges p)
         (props_sizingType p) (props_labelType p) (props_sizingAttribute p).

(** What [useGraph] hands back. *)
Record GraphState (Graph : Type) : Type := mkGraphState {
  gs_nodes : list GraphNode;
  gs_edges : list GraphEdge;
  gs_graph : Graph
}.

Arguments gs_nodes {Graph} g.
Arguments gs_edges {Graph} g.
Arguments gs_graph {Graph} g.

(** [GraphRendererRef]. *)
Record GraphRendererRef : Type := mkRef {
  ref_centerGraph : option (list string) -> M unit
}.

(** One render of the component: the handle given to [ref] and the
    children of the fragment. *)
Record Rendered (Graph : Type) : Type := mkRendered {
  handle : GraphRendererRef;
  children : list (Element Graph)
}.

Arguments handle {Graph} r.
Arguments children {Graph} r.

(** The component, over the [useGraph] hook of [./utils/graph]. *)
Definition GraphRenderer {Graph : Type}
    (useGraph : RestProps -> GraphState Graph)
    (props : GraphRendererProps) : Rendered Graph :=
  let g := useGraph (rest props) in
  mkRendered Graph
    (mkRef (centerGraph (gs_nodes g)))
    (render (gs_nodes g) (gs_edges g) (gs_graph g) (props_onNodeClick props)).

End GraphRenderer.

(* ------------------------------------------------------------------ *)
(** * The Controls component                                            *)
(* ------------------------------------------------------------------ *)

Module Controls.

Open Scope float_scope.

(** [KEY_CODES]. *)
Definition ARROW_LEFT : nat := 37.
Definition ARROW_UP : nat := 38.
Definition ARROW_RIGHT : nat := 39.
Definition ARROW_DOWN : nat := 40.

(** [new holdEvent.KeyboardKeyHold(keyCode, holdIntervalDelay)]: the
    library object that emits ['holding'] while the key is down. *)
Record KeyboardKeyHold : Type := mkKeyboardKeyHold {
  kh_keyCode : nat;
  kh_holdIntervalDelay : nat;   (* milliseconds *)
  kh_target : Target            (* the emitter listeners attach to *)
}.

Definition leftKey : KeyboardKeyHold := mkKeyboardKeyHold ARROW_LEFT 100 LeftKey.
Definition rightKey : KeyboardKeyHold := mkKeyboardKeyHold ARROW_RIGHT 100 RightKey.
Definition upKey : KeyboardKeyHold := mkKeyboardKeyHold ARROW_UP 100 UpKey.
Definition downKey : KeyboardKeyHold := mkKeyboardKeyHold ARROW_DOWN 100 DownKey.

(** The event objects the callbacks read: a property that is not there
    reads as [undefined]. *)
Record Event : Type := mkEvent {
  deltaTime : option float;
  code : option string
}.

(** [event.deltaTime] as an operand of [*]: [undefined] converts to NaN. *)
Definition deltaTime_number (event : Event) : float :=
  match deltaTime event with
  | Some dt => dt
  | None => nan
  end.

(** [event.code === 'Space']. *)
Definition code_is_Space (event : Event) : bool :=
  match code event with
  | Some c => String.eqb c "Space"
  | None => false
  end.

(** [ControlsProps] without [children]. *)
Record ControlsProps : Type := mkControlsProps {
  props_mode : option string;
  props_animated : option bool
}.

(** [Controls.defaultProps = { mode: 'rotate' }], applied when the element
    is created to every prop that is [undefined]. *)
Definition defaultProps_mode : string := "rotate".

Definition resolveDefaultProps (p : ControlsProps) : ControlsProps :=
  mkControlsProps
    (match props_mode p with
     | Some m => Some m
     | None => Some defaultProps_mode
     end)
    (props_animated p).

(** [mode === 'rotate']. *)
Definition is_rotate (mode : option string) : bool :=
  match mode with
  | Some m => String.eqb m "rotate"
  | None => false
  end.

(** [cameraRef.current?.method(...)]: nothing happens on a null ref. *)
Definition withCamera (k : M unit) : M unit :=
  fun w =>
    match cameraRef w with
    | Some _ => k w
    | None => (Normal tt, w)
    end.

(** The instance [cam] after [cam.mouseButtons.left = action]. *)
Definition withLeft (action : ACTION) (cam : CameraControls) : CameraControls :=
  let mb := mouseButtons cam in
  mkCameraControls (mkMouseButtons action (middle mb) (right mb) (wheel mb)).

(** [cameraRef.current.mouseButtons.left = action]: a null ref throws. *)
Definition setMouseLeft (action : ACTION) : M unit :=
  fun w =>
    match cameraRef w with
    | Some cam =>
        (Normal tt,
         mkWorld (Some (withLeft action cam)) (listeners w) (calls w))
    | None =>
        (Throw (TypeError
                  "Cannot read properties of null (reading 'mouseButtons')"),
         w)
    end.

Section Callbacks.

(** What the callbacks close over: the props, and [camera.zoom] of
    [useThree()]. *)
Variable mode : option string.
Variable animated : option bool.
Variable camera_zoom : float.

Definition zoomIn : M unit :=
  withCamera (call (Zoom (camera_zoom / 2) animated)) ;;
  call Invalidate.

Definition zoomOut : M unit :=
  withCamera (call (Zoom ((- camera_zoom) / 2) animated)) ;;
  call Invalidate.

Definition panRight (event : Event) : M unit :=
  withCamera (call (Truck (-0.03 * deltaTime_number event) 0 animated)) ;;
  call Invalidate.

Definition panLeft (event : Event) : M unit :=
  withCamera (call (Truck (0.03 * deltaTime_number event) 0 animated)) ;;
  call Invalidate.

Definition panUp (event : Event) : M unit :=
  withCamera (call (Truck 0 (0.03 * deltaTime_number event) animated)) ;;
  call Invalidate.

Definition panDown (event : Event) : M unit :=
  withCamera (call (Truck 0 (-0.03 * deltaTime_number event) animated)) ;;
  call Invalidate.

Definition onKeyDown (event : Event) : M unit :=
  if code_is_Space event then
    if is_rotate mode then setMouseLeft TRUCK else setMouseLeft ROTATE
  else ret tt.

Definition onKeyUp (event : Event) : M unit :=
  if code_is_Space event then
    if is_rotate mode then setMouseLeft ROTATE else setMouseLeft TRUCK
  else ret tt.

End Callbacks.

(** ** Listener tables

    [addEventListener] and [removeEventListener] as the event
    dispatchers of hold-event, camera-controls and the DOM implement them:
    a listener already present is not added twice, removal takes out the
    entry with the same target, type and function, and a dispatch calls
    the listeners of that target and type in the order they were added. *)

Definition Target_eq_dec (a b : Target) : {a = b} + {a <> b}.
Proof. decide equality. Defined.

Definition Handler_eq_dec (a b : Handler) : {a = b} + {a <> b}.
Proof.
  decide equality;
    try (decide equality; apply Bool.bool_dec);
    try (decide equality; apply string_dec).
Defined.

Definition Listener_eq_dec (a b : Listener) : {a = b} + {a <> b}.
Proof.
  decide equality;
    [ apply Handler_eq_dec | apply string_dec | apply Target_eq_dec ].
Defined.

Definition has_listener (l : Listener) (ls : list Listener) : bool :=
  if in_dec Listener_eq_dec l ls then true else false.

Definition add_listener (l : Listener) (ls : list Listener) : list Listener :=
  if has_listener l ls then ls else ls ++ [l].

Fixpoint remove_listener (l : Listener) (ls : list Listener) : list Listener :=
  match ls with
  | [] => []
  | x :: rest =>
      if Listener_eq_dec l x then rest else x :: remove_listener l rest
  end.

Definition addEventListener (t : Target) (type : string) (h : Handler)
    : M unit :=
  fun w =>
    (Normal tt,
     mkWorld (cameraRef w) (add_listener (mkListener t type h) (listeners w))
             (calls w)).

Definition removeEventListener (t : Target) (type : string) (h : Handler)
    : M unit :=
  fun w =>
    (Normal tt,
     mkWorld (cameraRef w)
             (remove_listener (mkListener t type h) (listeners w))
             (calls w)).

(** The same two methods called on the value read from [cameraRef.current]:
    a method call on [null] throws. *)
Definition ref_addEventListener (ref : option CameraControls)
    (type : string) (h : Handler) : M unit :=
  match ref with
  | Some _ => addEventListener Camera type h
  | None =>
      throw (TypeError
               "Cannot read properties of null (reading 'addEventListener')")
  end.

Definition ref_removeEventListener (ref : option CameraControls)
    (type : string) (h : Handler) : M unit :=
  match ref with
  | Some _ => removeEventListener Camera type h
  | None =>
      throw (TypeError
               "Cannot read properties of null (reading 'removeEventListener')")
  end.

(** The function behind a registered listener.  [camera_zoom] is not
    captured by any of them. *)
Definition runHandler (h : Handler) (event : Event) : M unit :=
  match h with
  | HPanLeft animated => panLeft animated event
  | HPanRight animated => panRight animated event
  | HPanUp animated => panUp animated event
  | HPanDown animated => panDown animated event
  | HOnKeyDown mode => onKeyDown mode event
  | HOnKeyUp mode => onKeyUp mode event
  | HInvalidate => call Invalidate
  end.

Fixpoint runHandlers (hs : list Handler) (event : Event) : M unit :=
  match hs with
  | [] => ret tt
  | h :: rest => runHandler h event ;; runHandlers rest event
  end.

Definition listens (t : Target) (type : string) (l : Listener) : bool :=
  (if Target_eq_dec (l_target l) t then true else false)
  && String.eqb (l_type l) type.

(** The handlers a dispatch on [t] of an event of type [type] reaches. *)
Definition handlersFor (t : Target) (type : string) (ls : list Listener)
    : list Handler :=
  map l_handler (filter (listens t type) ls).

Definition dispatchEvent (t : Target) (type : string) (event : Event)
    : M unit :=
  fun w => runHandlers (handlersFor t type (listeners w)) event w.

(** ** Effects, hotkeys and the exposed value *)

(** A [reakeys] hotkey entry. *)
Record HotkeyShortcut : Type := mkHotkey {
  hk_name : string;
  hk_keys : string;
  hk_callback : Event -> M unit
}.

(** [ControlsContextProps]. *)
Record ControlsContextProps : Type := mkContext {
  ctx_controls : option CameraControls;
  ctx_zoomIn : M unit;
  ctx_zoomOut : M unit;
  ctx_panLeft : M unit;
  ctx_panRight : M unit;
  ctx_panDown : M unit;
  ctx_panUp : M unit
}.

Definition truthy {A : Type} (o : option A) : bool :=
  match o with
  | Some _ => true
  | None => false
  end.

Definition readRef : M (option CameraControls) :=
  fun w => (Normal (cameraRef w), w).

Section Component.

Variable mode : option string.
Variable animated : option bool.
Variable camera_zoom : float.

(** [const { controls } = useControls()]: the value of the enclosing
    context, from [./useControls]. *)
Variable controls : option CameraControls.

(** [useFrame((_state, delta) => cameraRef.current?.update(delta))]. *)
Definition onFrame (delta : float) : M unit :=
  withCamera (call (Update delta)).

(** [useEffect(() => () => cameraRef.current?.dispose(), [])]: the body
    does nothing and returns the cleanup. *)
Definition disposeCleanup : M unit :=
  withCamera (call Dispose).

Definition disposeEffect : M (M unit) :=
  ret disposeCleanup.

(** The key listener effect (lines 128-144) and the cleanup it returns. *)
Definition keyListenerCleanup : M unit :=
  removeEventListener (kh_target leftKey) "holding" (HPanLeft animated) ;;
  removeEventListener (kh_target rightKey) "holding" (HPanRight animated) ;;
  removeEventListener (kh_target upKey) "holding" (HPanUp animated) ;;
  removeEventListener (kh_target downKey) "holding" (HPanDown animated) ;;
  removeEventListener Window "keydown" (HOnKeyDown mode) ;;
  removeEventListener Window "keyup" (HOnKeyUp mode).

Definition keyListenerEffect : M (M unit) :=
  addEventListener (kh_target leftKey) "holding" (HPanLeft animated) ;;
  addEventListener (kh_target rightKey) "holding" (HPanRight animated) ;;
  addEventListener (kh_target upKey) "holding" (HPanUp animated) ;;
  addEventListener (kh_target downKey) "holding" (HPanDown animated) ;;
  addEventListener Window "keydown" (HOnKeyDown mode) ;;
  addEventListener Window "keyup" (HOnKeyUp mode) ;;
  ret keyListenerCleanup.

(** The update/control listener effect (lines 146-163); its cleanup
    closes over [ref], the value [cameraRef.current] had when the body
    ran. *)
Definition controlListenerCleanup (ref : option CameraControls) : M unit :=
  if truthy controls then
    ref_removeEventListener ref "update" HInvalidate ;;
    ref_removeEventListener ref "control" HInvalidate
  else ret tt.

Definition controlListenerEffect : M (M unit) :=
  ref <- readRef ;;
  (if negb (truthy ref) then
     ref_addEventListener ref "update" HInvalidate ;;
     ref_addEventListener ref "control" HInvalidate
   else ret tt) ;;
  ret (controlListenerCleanup ref).

(** The mode effect (lines 165-171). *)
Definition modeEffect : M unit :=
  if is_rotate mode then setMouseLeft ROTATE else setMouseLeft TRUCK.

(** The table given to [useHotkeys]. *)
Definition hotkeys : list HotkeyShortcut :=
  [ mkHotkey "Zoom In" "command+shift+i"
      (fun _event => call PreventDefault ;; zoomIn animated camera_zoom);
    mkHotkey "Zoom Out" "command+shift+o"
      (fun _event => call PreventDefault ;; zoomOut animated camera_zoom) ].

(** [values]; [current] is [cameraRef.current] as read when the memo is
    computed. *)
Definition values (current : option CameraControls) : ControlsContextProps :=
  mkContext current
    (zoomIn animated camera_zoom)
    (zoomOut animated camera_zoom)
    (panLeft animated (mkEvent (Some 1) None))
    (panRight animated (mkEvent (Some 1) None))
    (panDown animated (mkEvent (Some 1) None))
    (panUp animated (mkEvent (Some 1) None)).

(** [useImperativeHandle(ref, () => values)] and
    [<ControlsContext.Provider value={values}>]. *)
Definition imperativeHandle (current : option CameraControls)
    : ControlsContextProps := values current.

Definition contextValue (current : option CameraControls)
    : ControlsContextProps := values current.

(** React's commit of the mounted component: the [cameraControls] child
    has filled [cameraRef], then the effects run in the order they are
    declared; the value is the list of their cleanups. *)
Definition mount (cam : CameraControls) : M (list (M unit)) :=
  (fun w => (Normal tt, mkWorld (Some cam) (listeners w) (calls w))) ;;
  c1 <- disposeEffect ;;
  c2 <- keyListenerEffect ;;
  c3 <- controlListenerEffect ;;
  modeEffect ;;
  ret [c1; c2; c3].

End Component.

(** React's unmount of the component.  React (17 and later, which
    @react-three/fiber needs) first detaches the refs of the subtree it
    removes, so [cameraRef.current] is [null] again, and only then runs the
    cleanups of the [useEffect] effects, in the order of their effects. *)
Definition detachRef : M unit :=
  fun w => (Normal tt, mkWorld None (listeners w) (calls w)).

Fixpoint runCleanups (cleanups : list (M unit)) : M unit :=
  match cleanups with
  | [] => ret tt
  | c :: rest => c ;; runCleanups rest
  end.

Definition unmount (cleanups : list (M unit)) : M unit :=
  detachRef ;; runCleanups cleanups.

(** [reakeys] firing the entries of the table whose [keys] field is
    [keys], the string as the table spells it.  How the library maps
    keyboard input (aliases of a modifier, the order of the modifiers) to
    such an entry is its own business and is not modelled. *)
Fixpoint pressHotkey (table : list HotkeyShortcut) (keys : string)
    (event : Event) : M unit :=
  match table with
  | [] => ret tt
  | h :: rest =>
      (if String.eqb (hk_keys h) keys then hk_callback h event else ret tt) ;;
      pressHotkey rest keys event
  end.

(** Adding, and removing, a batch of listeners one after the other. *)
Definition add_all (batch ls : list Listener) : list Listener :=
  fold_left (fun acc l => add_listener l acc) batch ls.

Definition remove_all (batch ls : list Listener) : list Listener :=
  fold_left (fun acc l => remove_listener l acc) batch ls.

(** The six listeners the key listener effect holds while the component
    is mounted: the four pan callbacks on the arrow-key emitters and the
    two Space handlers on the window. *)
Definition keyListeners (mode : option string) (animated : option bool)
    : list Listener :=
  [ mkListener LeftKey "holding" (HPanLeft animated);
    mkListener RightKey "holding" (HPanRight animated);
    mkListener UpKey "holding" (HPanUp animated);
    mkListener DownKey "holding" (HPanDown animated);
    mkListener Window "keydown" (HOnKeyDown mode);
    mkListener Window "keyup" (HOnKeyUp mode) ].

End Controls.

(* ------------------------------------------------------------------ *)
(** * Sample inputs                                                     *)
(* ------------------------------------------------------------------ *)

Module Samples.

(** A world with nothing attached, registered or called yet. *)
Definition emptyWorld : World := mkWorld None [] [].

Definition nodeA : GraphNode := mkGraphNode "a" [("label", "A")].
Definition nodeB : GraphNode := mkGraphNode "b" [("label", "B")].
Definition nodeC : GraphNode := mkGraphNode "c" [("label", "C")].
(** A second node that reuses the id of [nodeA]. *)
Definition nodeA' : GraphNode := mkGraphNode "a" [("label", "A again")].

Definition sampleNodes : list GraphNode := [nodeA; nodeB; nodeC; nodeA'].

Definition edgeAB : GraphEdge :=
  mkGraphEdge "a->b" [("source", "a"); ("target", "b")].

Definition sampleEdges : list GraphEdge := [edgeAB].

(** A [useGraph] that hands the lists on as they are, with a unit graph. *)
Definition plainUseGraph (r : GraphRenderer.RestProps)
    : GraphRenderer.GraphState unit :=
  GraphRenderer.mkGraphState unit
    (GraphRenderer.rest_nodes r) (GraphRenderer.rest_edges r) tt.

(** A click callback that returns. *)
Definition quietCallback : GraphRenderer.NodeClickCallback :=
  fun _ => Normal tt.

Definition sampleProps : GraphRenderer.GraphRendererProps :=
  GraphRenderer.mkProps None sampleNodes sampleEdges None None None
    (Some quietCallback).

(** A camera-controls instance with the library's initial bindings. *)
Definition freshCamera : CameraControls :=
  mkCameraControls (mkMouseButtons ROTATE DOLLY TRUCK DOLLY).

Definition mountedWorld : World := mkWorld (Some freshCamera) [] [].

End Samples.

(* ------------------------------------------------------------------ *)
(** * The call log                                                      *)
(* ------------------------------------------------------------------ *)

Module WorldFacts.

Lemma logged_logged (w : World) (a b : list Call) :
  logged (logged w a) b = logged w (a ++ b).
Proof.
  unfold logged; simpl. now rewrite app_assoc.
Qed.

Lemma logged_calls (w : World) (cs : list Call) :
  calls (logged w cs) = calls w ++ cs.
Proof. reflexivity. Qed.

Lemma call_call (c d : Call) (w : World) :
  (call c ;; call d) w = (Normal tt, logged w [c; d]).
Proof.
  unfold bind, call. now rewrite logged_logged.
Qed.

End WorldFacts.

Export WorldFacts.

(* ------------------------------------------------------------------ *)
(** * Properties of GraphRenderer                                       *)
(* ------------------------------------------------------------------ *)

Module GraphRendererFacts.

Import GraphRenderer.

(** [find] returns the first node carrying the id. *)
Lemma findNode_Some (nodes : list GraphNode) (id : string) (n : GraphNode) :
  findNode nodes id = Some n -> In n nodes /\ node_id n = id.
Proof.
  unfold findNode. intros H.
  apply find_some in H. destruct H as [Hin Heq].
  split; [exact Hin | now apply String.eqb_eq].
Qed.

Lemma findNode_None (nodes : list GraphNode) (id : string) :
  findNode nodes id = None <-> (forall n, In n nodes -> node_id n <> id).
Proof.
  unfold findNode. split.
  - intros H n Hin Heq.
    pose proof (find_none _ _ H n Hin) as Hf. simpl in Hf.
    apply String.eqb_neq in Hf. contradiction.
  - intros H. induction nodes as [|x xs IH]; simpl; [reflexivity|].
    destruct (String.eqb (node_id x) id) eqn:E.
    + apply String.eqb_eq in E. exfalso. apply (H x); [now left | exact E].
    + apply IH. intros n Hin. apply H. now right.
Qed.

Lemma findNode_known (nodes : list GraphNode) (id : string) :
  (exists n, In n nodes /\ node_id n = id) ->
  exists n, findNode nodes id = Some n.
Proof.
  intros [n [Hin Heq]].
  destruct (findNode nodes id) as [m|] eqn:E; [now exists m|].
  exfalso. exact (proj1 (findNode_None nodes id) E n Hin Heq).
Qed.

(** The reduction over ids that are all known collects, behind the
    accumulator, the first node of each id, in the order of the ids. *)
Lemma reduce_collect_known (nodes : list GraphNode) (ids : list string) :
  Forall (fun i => exists n, In n nodes /\ node_id n = i) ids ->
  forall acc, exists ns,
    reduce (collect nodes) ids acc = Normal (acc ++ ns) /\
    Forall2 (fun i n => findNode nodes i = Some n) ids ns.
Proof.
  induction 1 as [|i rest Hi _ IH]; intros acc.
  - exists []. split; [simpl; now rewrite app_nil_r | constructor].
  - destruct (findNode_known nodes i Hi) as [n Hn].
    destruct (IH (acc ++ [n])) as [ns [Hred Hall]].
    exists (n :: ns). split.
    + simpl. unfold collect at 1. rewrite Hn. rewrite Hred.
      now rewrite <- app_assoc.
    + now constructor.
Qed.

(** The reduction stops at the first id that no node carries and throws
    the error naming it. *)
Lemma reduce_collect_unknown (nodes : list GraphNode)
    (pre : list string) (bad : string) (post : list string) :
  Forall (fun i => exists n, In n nodes /\ node_id n = i) pre ->
  findNode nodes bad = None ->
  forall acc,
    reduce (collect nodes) (pre ++ bad :: post) acc =
    Throw (Error (template "Attempted to center " bad
                           " but it was not found in the nodes")).
Proof.
  induction 1 as [|i rest Hi _ IH]; intros Hbad acc.
  - simpl. unfold collect. now rewrite Hbad.
  - destruct (findNode_known nodes i Hi) as [n Hn].
    simpl. unfold collect at 1. rewrite Hn. now apply IH.
Qed.

(** A list with an unknown id splits at its first unknown id. *)
Lemma first_unknown (nodes : list GraphNode) (ids : list string) :
  (exists i, In i ids /\ forall n, In n nodes -> node_id n <> i) ->
  exists pre bad post,
    ids = pre ++ bad :: post /\
    Forall (fun i => exists n, In n nodes /\ node_id n = i) pre /\
    findNode nodes bad = None.
Proof.
  induction ids as [|x xs IH]; intros [i [Hin Hno]]; [destruct Hin|].
  destruct (findNode nodes x) as [n|] eqn:E.
  - destruct Hin as [->|Hin].
    + apply findNode_Some in E. destruct E as [Hn Hid].
      exfalso. exact (Hno n Hn Hid).
    + destruct IH as [pre [bad [post [Heq [Hpre Hbad]]]]];
        [exists i; now split|].
      exists (x :: pre), bad, post. repeat split.
      * simpl. now rewrite Heq.
      * constructor; [|exact Hpre].
        apply findNode_Some in E. exists n. exact E.
      * exact Hbad.
  - exists [], x, xs. repeat split; [constructor | exact E].
Qed.

(** The parts of the [centerGraph] contract the code keeps.  Called with a
    non-empty list of ids that each belong to some node of the current
    nodes list, it invokes [centerNodes] once, with the array of the
    matching node objects (for each id the first node carrying it) in the
    order of the ids.  Called without a list, it invokes [centerNodes]
    with the full current nodes list. *)
Theorem centerGraph_centers_matching_nodes
    (nodes : list GraphNode) (ids : list string) (w : World)
    (Hne : ids <> [])
    (Hknown : Forall (fun i => exists n, In n nodes /\ node_id n = i) ids) :
  (exists ns,
      centerGraph nodes (Some ids) w
        = (Normal tt, logged w [CenterNodes (Nodes ns)]) /\
      Forall2 (fun i n => findNode nodes i = Some n) ids ns /\
      map node_id ns = ids /\
      Forall (fun n => In n nodes) ns) /\
  centerGraph nodes None w
    = (Normal tt, logged w [CenterNodes (Nodes nodes)]).
Proof.
  split; [|reflexivity].
  destruct (reduce_collect_known nodes ids Hknown []) as [ns [Hred Hall]].
  exists ns. split; [|split; [exact Hall|split]].
  - destruct ids as [|i rest]; [contradiction|].
    unfold centerGraph, bind, liftC, length_truthy.
    rewrite Hred. reflexivity.
  - clear Hred Hne Hknown.
    induction Hall as [|i n ids' ns' Hf _ IH]; [reflexivity|].
    simpl. apply findNode_Some in Hf. destruct Hf as [_ ->]. now rewrite IH.
  - clear Hred Hne Hknown.
    induction Hall as [|i n ids' ns' Hf _ IH]; constructor; [|exact IH].
    apply findNode_Some in Hf. tauto.
Qed.

Lemma centerGraph_centers_matching_nodes_witness :
  exists ns,
    centerGraph Samples.sampleNodes (Some ["c"; "a"]) Samples.emptyWorld
      = (Normal tt, logged Samples.emptyWorld [CenterNodes (Nodes ns)]) /\
    Forall2 (fun i n => findNode Samples.sampleNodes i = Some n)
            ["c"; "a"] ns /\
    map node_id ns = ["c"; "a"] /\
    Forall (fun n => In n Samples.sampleNodes) ns.
Proof.
  refine (proj1 (centerGraph_centers_matching_nodes
                   Samples.sampleNodes ["c"; "a"] Samples.emptyWorld _ _)).
  - discriminate.
  - repeat constructor.
    + exists Samples.nodeC. split; [simpl; tauto | reflexivity].
    + exists Samples.nodeA. split; [simpl; tauto | reflexivity].
Defined.

(** C1, at the empty list.  Line 39 sends the empty list, like the absent
    one, past the reduction to the fallback of line 54; there
    [[] || nodes] is [[]], an array being truthy, so [centerNodes] is
    invoked with the empty array and not, as for the absent list, with
    the full nodes list. *)
Theorem centerGraph_empty_list_passes_empty_array :
  length_truthy (Some []) = length_truthy None /\
  centerGraph Samples.sampleNodes None Samples.emptyWorld
    = (Normal tt,
       logged Samples.emptyWorld [CenterNodes (Nodes Samples.sampleNodes)]) /\
  centerGraph Samples.sampleNodes (Some []) Samples.emptyWorld
    = (Normal tt, logged Samples.emptyWorld [CenterNodes (Ids [])]) /\
  centerGraph Samples.sampleNodes (Some []) Samples.emptyWorld
    <> (Normal tt,
        logged Samples.emptyWorld [CenterNodes (Nodes Samples.sampleNodes)]).
Proof.
  repeat split; discriminate.
Qed.

(** C2.  When the list given to [centerGraph] contains an id that no node
    of the current nodes list carries, [centerGraph] throws the [Error]
    whose message names the first such id of the list, and the world is
    left as it was: [centerNodes] is not called and the camera state is
    unchanged. *)
Theorem centerGraph_unknown_id_throws
    (nodes : list GraphNode) (ids : list string) (w : World)
    (Hbad : exists i, In i ids /\ forall n, In n nodes -> node_id n <> i) :
  exists pre bad post,
    ids = pre ++ bad :: post /\
    Forall (fun i => exists n, In n nodes /\ node_id n = i) pre /\
    (forall n, In n nodes -> node_id n <> bad) /\
    centerGraph nodes (Some ids) w
      = (Throw (Error ("Attempted to center " ++ bad
                       ++ " but it was not found in the nodes")%string),
         w).
Proof.
  destruct (first_unknown nodes ids Hbad) as [pre [bad [post [Heq [Hpre Hno]]]]].
  exists pre, bad, post. split; [exact Heq|split; [exact Hpre|split]].
  - now apply findNode_None.
  - subst ids. unfold centerGraph, bind, liftC.
    replace (length_truthy (Some (pre ++ bad :: post))) with true
      by (destruct pre; reflexivity).
    rewrite (reduce_collect_unknown nodes pre bad post Hpre Hno).
    reflexivity.
Qed.

Lemma centerGraph_unknown_id_throws_witness :
  exists pre bad post,
    ["b"; "x"; "a"; "y"] = pre ++ bad :: post /\
    Forall (fun i => exists n, In n Samples.sampleNodes /\ node_id n = i) pre /\
    (forall n, In n Samples.sampleNodes -> node_id n <> bad) /\
    centerGraph Samples.sampleNodes (Some ["b"; "x"; "a"; "y"])
                Samples.mountedWorld
      = (Throw (Error ("Attempted to center " ++ bad
                       ++ " but it was not found in the nodes")%string),
         Samples.mountedWorld).
Proof.
  apply (centerGraph_unknown_id_throws
           Samples.sampleNodes ["b"; "x"; "a"; "y"] Samples.mountedWorld).
  exists "y". split; [simpl; tauto|].
  intros n Hin.
  simpl in Hin.
  destruct Hin as [<-|[<-|[<-|[<-|[]]]]]; discriminate.
Defined.

(** C3.  For every props value the fragment holds one [Node] element per
    entry of the nodes list, keyed by the node's id and given the node's
    fields and the graph, followed by one [Edge] element per entry of the
    edges list, keyed by the edge's id, both in the order of the lists the
    component got from [useGraph]. *)
Theorem render_one_element_per_entry
    (Graph : Type) (useGraph : RestProps -> GraphState Graph)
    (props : GraphRendererProps) :
  let g := useGraph (rest props) in
  let out := children (GraphRenderer useGraph props) in
  out = map (fun n => NodeElement (node_id n) n (gs_graph g)
                        (nodeOnClick (props_onNodeClick props) n))
            (gs_nodes g)
        ++ map (fun e => EdgeElement (edge_id e) e) (gs_edges g) /\
  List.length out = List.length (gs_nodes g) + List.length (gs_edges g) /\
  (forall i, i < List.length (gs_nodes g) ->
     nth_error out i
       = option_map (renderNode (gs_graph g) (props_onNodeClick props))
                    (nth_error (gs_nodes g) i)) /\
  (forall j,
     nth_error out (List.length (gs_nodes g) + j)
       = option_map renderEdge (nth_error (gs_edges g) j)).
Proof.
  intros g out. subst out. unfold GraphRenderer; simpl. fold g.
  unfold render. repeat split.
  - rewrite length_app, !length_map. reflexivity.
  - intros i Hi.
    rewrite nth_error_app1 by (now rewrite length_map).
    apply nth_error_map.
  - intros j.
    rewrite nth_error_app2 by (rewrite length_map; lia).
    rewrite length_map.
    replace (List.length (gs_nodes g) + j - List.length (gs_nodes g)) with j by lia.
    apply nth_error_map.
Qed.

Lemma render_one_element_per_entry_witness :
  List.length (children (GraphRenderer Samples.plainUseGraph Samples.sampleProps))
    = List.length Samples.sampleNodes + List.length Samples.sampleEdges /\
  nth_error (children (GraphRenderer Samples.plainUseGraph Samples.sampleProps)) 2
    = Some (renderNode tt (Some Samples.quietCallback) Samples.nodeC).
Proof.
  pose proof (render_one_element_per_entry unit Samples.plainUseGraph
                Samples.sampleProps) as H.
  cbv zeta in H. destruct H as [_ [Hlen [Hnode _]]].
  split; [exact Hlen|].
  apply (Hnode 2). simpl. lia.
Defined.

(** C4.  Every node of the list has its element in the fragment, and a
    click on that element first invokes the [onNodeClick] callback, when
    one was given (and it returns), with that node's id, and then invokes
    [centerNodes] with the one-element list holding that node. *)
Theorem node_click_calls_back_then_centers
    (Graph : Type) (useGraph : RestProps -> GraphState Graph)
    (props : GraphRendererProps) (n : GraphNode) (w : World)
    (Hin : In n (gs_nodes (useGraph (rest props)))) :
  exists el,
    In el (children (GraphRenderer useGraph props)) /\
    el = renderNode (gs_graph (useGraph (rest props)))
                    (props_onNodeClick props) n /\
    (props_onNodeClick props = None ->
       click el w = (Normal tt, logged w [CenterNodes (Nodes [n])])) /\
    (forall cb, props_onNodeClick props = Some cb ->
       cb (node_id n) = Normal tt ->
       click el w
         = (Normal tt,
            logged w [OnNodeClick (node_id n); CenterNodes (Nodes [n])])).
Proof.
  eexists. split; [|split; [reflexivity|split]].
  - unfold GraphRenderer; simpl. unfold render.
    apply in_or_app. left. now apply in_map.
  - intros Hnone. simpl. unfold nodeOnClick, callOnNodeClick.
    rewrite Hnone. reflexivity.
  - intros cb Hsome Hret. simpl. unfold nodeOnClick, callOnNodeClick.
    rewrite Hsome. unfold bind, call, liftC, centerNodes. rewrite Hret.
    unfold call. now rewrite logged_logged.
Qed.

Lemma node_click_calls_back_then_centers_witness :
  exists el,
    In el (children (GraphRenderer Samples.plainUseGraph Samples.sampleProps)) /\
    click el Samples.emptyWorld
      = (Normal tt,
         logged Samples.emptyWorld
                [OnNodeClick "b"; CenterNodes (Nodes [Samples.nodeB])]).
Proof.
  destruct (node_click_calls_back_then_centers unit Samples.plainUseGraph
              Samples.sampleProps Samples.nodeB Samples.emptyWorld)
    as [el [Hel [_ [_ Hclick]]]].
  - simpl. tauto.
  - exists el. split; [exact Hel|].
    apply (Hclick Samples.quietCallback); reflexivity.
Defined.

End GraphRendererFacts.

(* ------------------------------------------------------------------ *)
(** * Properties of Controls                                            *)
(* ------------------------------------------------------------------ *)

Module ControlsFacts.

Import Controls.

Open Scope float_scope.

(** ** The monad *)

Lemma bind_ret_r (c : M unit) (w : World) : (c ;; ret tt) w = c w.
Proof.
  unfold bind, ret. destruct (c w) as [[[]|e] w']; reflexivity.
Qed.

Lemma withCamera_attached (k : M unit) (w : World) (cam : CameraControls) :
  cameraRef w = Some cam -> withCamera k w = k w.
Proof. intros H. unfold withCamera. now rewrite H. Qed.

Lemma withCamera_null (k : M unit) (w : World) :
  cameraRef w = None -> withCamera k w = (Normal tt, w).
Proof. intros H. unfold withCamera. now rewrite H. Qed.

(** An optional camera call followed by [invalidate()], on an attached
    ref. *)
Lemma camera_call_then_invalidate (c : Call) (w : World) (cam : CameraControls) :
  cameraRef w = Some cam ->
  (withCamera (call c) ;; call Invalidate) w
    = (Normal tt, logged w [c; Invalidate]).
Proof.
  intros H. unfold bind. rewrite (withCamera_attached _ _ _ H).
  unfold call. now rewrite logged_logged.
Qed.

(** On a null ref only [invalidate()] happens. *)
Lemma camera_call_skipped (c : Call) (w : World) :
  cameraRef w = None ->
  (withCamera (call c) ;; call Invalidate) w
    = (Normal tt, logged w [Invalidate]).
Proof.
  intros H. unfold bind. rewrite (withCamera_null _ _ H). reflexivity.
Qed.

Lemma is_rotate_true (mode : option string) :
  is_rotate mode = true <-> mode = Some "rotate"%string.
Proof.
  destruct mode as [m|]; simpl.
  - rewrite String.eqb_eq. split; congruence.
  - split; discriminate.
Qed.

Lemma is_rotate_false (mode : option string) :
  is_rotate mode = false <-> mode <> Some "rotate"%string.
Proof.
  rewrite <- is_rotate_true. destruct (is_rotate mode); split; congruence.
Qed.

(** ** Listener tables *)

Lemma has_listener_In (l : Listener) (ls : list Listener) :
  has_listener l ls = true <-> In l ls.
Proof.
  unfold has_listener. destruct (in_dec Listener_eq_dec l ls); split;
    intros; try assumption; try reflexivity; try discriminate; contradiction.
Qed.

Lemma add_listener_In (l x : Listener) (ls : list Listener) :
  In x (add_listener l ls) <-> In x ls \/ x = l.
Proof.
  unfold add_listener. destruct (has_listener l ls) eqn:E.
  - apply has_listener_In in E. split; [now left|].
    intros [H| ->]; assumption.
  - rewrite in_app_iff. simpl. split.
    + intros [H|[H|[]]]; [now left | right; now symmetry].
    + intros [H| ->]; [now left | right; now left].
Qed.

Lemma add_listener_NoDup (l : Listener) (ls : list Listener) :
  NoDup ls -> NoDup (add_listener l ls).
Proof.
  intros H. unfold add_listener. destruct (has_listener l ls) eqn:E;
    [exact H|].
  assert (Hnot : ~ In l ls).
  { intros Hin. apply has_listener_In in Hin. congruence. }
  clear E. induction H as [|x xs Hx Hxs IH]; simpl.
  - constructor; [intros [] | constructor].
  - constructor.
    + rewrite in_app_iff. simpl. intros [Hin|[->|[]]]; [contradiction|].
      apply Hnot. now left.
    + apply IH. intros Hin. apply Hnot. now right.
Qed.

Lemma remove_listener_subset (l x : Listener) (ls : list Listener) :
  In x (remove_listener l ls) -> In x ls.
Proof.
  induction ls as [|y ys IH]; simpl; [tauto|].
  destruct (Listener_eq_dec l y); simpl; [tauto|].
  intros [H|H]; [now left | right; now apply IH].
Qed.

Lemma remove_listener_other (l x : Listener) (ls : list Listener) :
  x <> l -> In x ls -> In x (remove_listener l ls).
Proof.
  intros Hne. induction ls as [|y ys IH]; simpl; [tauto|].
  destruct (Listener_eq_dec l y) as [->|Hly]; simpl.
  - intros [H|H]; [congruence | exact H].
  - intros [H|H]; [now left | right; now apply IH].
Qed.

Lemma remove_listener_NoDup (l : Listener) (ls : list Listener) :
  NoDup ls -> NoDup (remove_listener l ls).
Proof.
  induction 1 as [|y ys Hy Hys IH]; simpl; [constructor|].
  destruct (Listener_eq_dec l y); [exact Hys|].
  constructor; [|exact IH].
  intros Hin. apply Hy. eapply remove_listener_subset; eassumption.
Qed.

Lemma remove_listener_gone (l : Listener) (ls : list Listener) :
  NoDup ls -> ~ In l (remove_listener l ls).
Proof.
  induction 1 as [|y ys Hy Hys IH]; simpl; [tauto|].
  destruct (Listener_eq_dec l y) as [->|Hly]; [exact Hy|].
  simpl. intros [H|H]; [congruence | contradiction].
Qed.

Lemma add_all_In (batch : list Listener) :
  forall ls x, In x (add_all batch ls) <-> In x ls \/ In x batch.
Proof.
  induction batch as [|l rest IH]; intros ls x; simpl.
  - tauto.
  - unfold add_all in *. simpl. rewrite IH, add_listener_In.
    split; [intros [[H|H]|H] | intros [H|[H|H]]]; auto.
Qed.

Lemma add_all_NoDup (batch : list Listener) :
  forall ls, NoDup ls -> NoDup (add_all batch ls).
Proof.
  induction batch as [|l rest IH]; intros ls H; simpl; [exact H|].
  unfold add_all in *. simpl. apply IH. now apply add_listener_NoDup.
Qed.

Lemma remove_all_subset (batch : list Listener) :
  forall ls x, In x (remove_all batch ls) -> In x ls.
Proof.
  induction batch as [|l rest IH]; intros ls x; simpl; [tauto|].
  unfold remove_all in *. simpl. intros H.
  apply IH in H. eapply remove_listener_subset; eassumption.
Qed.

Lemma remove_all_NoDup (batch : list Listener) :
  forall ls, NoDup ls -> NoDup (remove_all batch ls).
Proof.
  induction batch as [|l rest IH]; intros ls H; simpl; [exact H|].
  unfold remove_all in *. simpl. apply IH. now apply remove_listener_NoDup.
Qed.

Lemma remove_all_gone (batch : list Listener) :
  forall ls x, NoDup ls -> In x batch -> ~ In x (remove_all batch ls).
Proof.
  induction batch as [|l rest IH]; intros ls x Hnd Hin; [destruct Hin|].
  unfold remove_all in *. simpl.
  destruct Hin as [->|Hin].
  - intros H. apply remove_all_subset in H.
    exact (remove_listener_gone x ls Hnd H).
  - apply IH; [now apply remove_listener_NoDup | exact Hin].
Qed.

Lemma remove_all_other (batch : list Listener) :
  forall ls x, ~ In x batch -> In x ls -> In x (remove_all batch ls).
Proof.
  induction batch as [|l rest IH]; intros ls x Hnot Hin; [exact Hin|].
  unfold remove_all in *. simpl. apply IH.
  - intros H. apply Hnot. now right.
  - apply remove_listener_other; [|exact Hin].
    intros ->. apply Hnot. now left.
Qed.

(** What the key listener effect and its cleanup do to the world. *)
Lemma keyListenerEffect_run (mode : option string) (animated : option bool)
    (w : World) :
  keyListenerEffect mode animated w
    = (Normal (keyListenerCleanup mode animated),
       mkWorld (cameraRef w)
               (add_all (keyListeners mode animated) (listeners w))
               (calls w)).
Proof. reflexivity. Qed.

Lemma keyListenerCleanup_run (mode : option string) (animated : option bool)
    (w : World) :
  keyListenerCleanup mode animated w
    = (Normal tt,
       mkWorld (cameraRef w)
               (remove_all (keyListeners mode animated) (listeners w))
               (calls w)).
Proof. reflexivity. Qed.

Lemma add_all_keyListeners_fresh (mode : option string)
    (animated : option bool) :
  add_all (keyListeners mode animated) [] = keyListeners mode animated.
Proof. reflexivity. Qed.

Lemma handlersFor_In (t : Target) (type : string) (h : Handler)
    (ls : list Listener) :
  In (mkListener t type h) ls -> In h (handlersFor t type ls).
Proof.
  intros H. unfold handlersFor.
  apply (in_map l_handler _ (mkListener t type h)).
  apply filter_In. split; [exact H|].
  unfold listens; simpl.
  destruct (Target_eq_dec t t); [|congruence].
  simpl. apply String.eqb_refl.
Qed.

(** The four pan callbacks on an attached ref. *)
Lemma pan_callbacks_attached
    (animated : option bool) (dt : float) (key : option string)
    (w : World) (cam : CameraControls) :
  cameraRef w = Some cam ->
  panLeft animated (mkEvent (Some dt) key) w
    = (Normal tt, logged w [Truck (0.03 * dt) 0 animated; Invalidate]) /\
  panRight animated (mkEvent (Some dt) key) w
    = (Normal tt, logged w [Truck (-0.03 * dt) 0 animated; Invalidate]) /\
  panUp animated (mkEvent (Some dt) key) w
    = (Normal tt, logged w [Truck 0 (0.03 * dt) animated; Invalidate]) /\
  panDown animated (mkEvent (Some dt) key) w
    = (Normal tt, logged w [Truck 0 (-0.03 * dt) animated; Invalidate]).
Proof.
  intros Href.
  repeat split;
    [unfold panLeft | unfold panRight | unfold panUp | unfold panDown];
    exact (camera_call_then_invalidate _ w cam Href).
Qed.

(** A mount on an instance [cam], and the unmount that follows it. *)
Lemma mount_run (mode : option string) (animated : option bool)
    (controls : option CameraControls) (cam : CameraControls) (w0 : World) :
  mount mode animated controls cam w0
    = (Normal [disposeCleanup; keyListenerCleanup mode animated;
               controlListenerCleanup controls (Some cam)],
       mkWorld (Some (withLeft (if is_rotate mode then ROTATE else TRUCK) cam))
               (add_all (keyListeners mode animated) (listeners w0))
               (calls w0)).
Proof.
  unfold mount, modeEffect. destruct (is_rotate mode); reflexivity.
Qed.

Lemma unmount_run (mode : option string) (animated : option bool)
    (controls : option CameraControls) (ref : CameraControls)
    (w1 : World) :
  unmount [disposeCleanup; keyListenerCleanup mode animated;
           controlListenerCleanup controls (Some ref)] w1
    = (Normal tt,
       mkWorld None
         (let kept := remove_all (keyListeners mode animated) (listeners w1) in
          if truthy controls then
            remove_listener (mkListener Camera "control" HInvalidate)
              (remove_listener (mkListener Camera "update" HInvalidate) kept)
          else kept)
         (calls w1)).
Proof.
  unfold unmount, detachRef, runCleanups.
  unfold bind at 1. unfold bind at 1.
  unfold disposeCleanup.
  rewrite withCamera_null by reflexivity.
  unfold bind at 1. rewrite keyListenerCleanup_run.
  unfold controlListenerCleanup. destruct controls; reflexivity.
Qed.

(** What holds of the frame callback, the hotkey table and the dispose
    cleanup while the camera controls are attached: every frame calls the
    controls' [update] with the frame delta; the table holds
    'command+shift+i' and 'command+shift+o', whose callbacks first prevent
    the event's default and then run [zoomIn] and [zoomOut]; and the
    cleanup of the dispose effect, run in such a world, calls
    [dispose]. *)
Lemma frame_and_hotkeys_attached
    (animated : option bool) (camera_zoom : float)
    (delta : float) (event : Event)
    (w : World) (cam : CameraControls) :
  cameraRef w = Some cam ->
  onFrame delta w = (Normal tt, logged w [Update delta]) /\
  map (fun h => (hk_name h, hk_keys h)) (hotkeys animated camera_zoom)
    = [("Zoom In", "command+shift+i"); ("Zoom Out", "command+shift+o")]%string /\
  pressHotkey (hotkeys animated camera_zoom) "command+shift+i" event w
    = (Normal tt,
       logged w [PreventDefault; Zoom (camera_zoom / 2) animated; Invalidate]) /\
  pressHotkey (hotkeys animated camera_zoom) "command+shift+o" event w
    = (Normal tt,
       logged w [PreventDefault; Zoom ((- camera_zoom) / 2) animated;
                 Invalidate]) /\
  disposeEffect w = (Normal disposeCleanup, w) /\
  disposeCleanup w = (Normal tt, logged w [Dispose]).
Proof.
  intros Href.
  split; [unfold onFrame; now rewrite (withCamera_attached _ _ _ Href)|].
  split; [reflexivity|].
  split; [|split].
  - unfold hotkeys, pressHotkey. simpl.
    unfold zoomIn, bind, ret, call. simpl.
    unfold withCamera. simpl. rewrite Href. unfold logged. simpl.
    now rewrite <- !app_assoc.
  - unfold hotkeys, pressHotkey. simpl.
    unfold zoomOut, bind, ret, call. simpl.
    unfold withCamera. simpl. rewrite Href. unfold logged. simpl.
    now rewrite <- !app_assoc.
  - split; [reflexivity|].
    unfold disposeCleanup. now rewrite (withCamera_attached _ _ _ Href).
Qed.

(** ** The claims *)

(** C5.  With the camera controls attached, for every [deltaTime] each pan
    operation commands one truck of 0.03 times [deltaTime] along its axis
    and then invalidates: [panLeft] by (+0.03*dt, 0), [panRight] by
    (-0.03*dt, 0), [panUp] by (0, +0.03*dt), [panDown] by (0, -0.03*dt). *)
Theorem pan_trucks_then_invalidates
    (animated : option bool) (dt : float) (key : option string)
    (w : World) (cam : CameraControls)
    (Href : cameraRef w = Some cam) :
  let event := mkEvent (Some dt) key in
  panLeft animated event w
    = (Normal tt, logged w [Truck (0.03 * dt) 0 animated; Invalidate]) /\
  panRight animated event w
    = (Normal tt, logged w [Truck (-0.03 * dt) 0 animated; Invalidate]) /\
  panUp animated event w
    = (Normal tt, logged w [Truck 0 (0.03 * dt) animated; Invalidate]) /\
  panDown animated event w
    = (Normal tt, logged w [Truck 0 (-0.03 * dt) animated; Invalidate]).
Proof.
  intros event. subst event.
  exact (pan_callbacks_attached animated dt key w cam Href).
Qed.

Lemma pan_trucks_then_invalidates_witness :
  panLeft (Some true) (mkEvent (Some 2) None) Samples.mountedWorld
    = (Normal tt,
       logged Samples.mountedWorld
              [Truck (0.03 * 2) 0 (Some true); Invalidate]) /\
  panDown (Some true) (mkEvent (Some 2) None) Samples.mountedWorld
    = (Normal tt,
       logged Samples.mountedWorld
              [Truck 0 (-0.03 * 2) (Some true); Invalidate]).
Proof.
  pose proof (pan_trucks_then_invalidates (Some true) 2 None
                Samples.mountedWorld Samples.freshCamera eq_refl) as H.
  cbv zeta in H. destruct H as [Hl [_ [_ Hd]]].
  split; [exact Hl | exact Hd].
Defined.

(** C6.  With the camera controls attached, [zoomIn] calls the controls'
    zoom with [camera.zoom / 2] and [zoomOut] with [-camera.zoom / 2],
    each followed by invalidate; the value handed to the ref and to the
    context exposes both, together with the four pan operations called
    with [deltaTime] fixed to 1. *)
Theorem zoom_steps_and_exposed_handle
    (animated : option bool) (camera_zoom : float)
    (current : option CameraControls)
    (w : World) (cam : CameraControls)
    (Href : cameraRef w = Some cam) :
  let v := values animated camera_zoom current in
  zoomIn animated camera_zoom w
    = (Normal tt, logged w [Zoom (camera_zoom / 2) animated; Invalidate]) /\
  zoomOut animated camera_zoom w
    = (Normal tt, logged w [Zoom ((- camera_zoom) / 2) animated; Invalidate]) /\
  imperativeHandle animated camera_zoom current = v /\
  contextValue animated camera_zoom current = v /\
  ctx_controls v = current /\
  ctx_zoomIn v = zoomIn animated camera_zoom /\
  ctx_zoomOut v = zoomOut animated camera_zoom /\
  ctx_panLeft v w
    = (Normal tt, logged w [Truck (0.03 * 1) 0 animated; Invalidate]) /\
  ctx_panRight v w
    = (Normal tt, logged w [Truck (-0.03 * 1) 0 animated; Invalidate]) /\
  ctx_panUp v w
    = (Normal tt, logged w [Truck 0 (0.03 * 1) animated; Invalidate]) /\
  ctx_panDown v w
    = (Normal tt, logged w [Truck 0 (-0.03 * 1) animated; Invalidate]).
Proof.
  intros v.
  destruct (pan_callbacks_attached animated 1 None w cam Href)
    as [Hl [Hr [Hu Hd]]].
  repeat split; try assumption;
    [unfold zoomIn | unfold zoomOut];
    exact (camera_call_then_invalidate _ w cam Href).
Qed.

Lemma zoom_steps_and_exposed_handle_witness :
  zoomIn None 4 Samples.mountedWorld
    = (Normal tt, logged Samples.mountedWorld [Zoom (4 / 2) None; Invalidate]) /\
  zoomOut None 4 Samples.mountedWorld
    = (Normal tt,
       logged Samples.mountedWorld [Zoom ((- 4) / 2) None; Invalidate]) /\
  ctx_panLeft (values None 4 (Some Samples.freshCamera)) Samples.mountedWorld
    = (Normal tt,
       logged Samples.mountedWorld [Truck (0.03 * 1) 0 None; Invalidate]).
Proof.
  pose proof (zoom_steps_and_exposed_handle None 4 (Some Samples.freshCamera)
                Samples.mountedWorld Samples.freshCamera eq_refl) as H.
  cbv zeta in H.
  destruct H as [Hin [Hout [_ [_ [_ [_ [_ [Hl _]]]]]]]].
  split; [exact Hin | split; [exact Hout | exact Hl]].
Defined.

(** C7.  The mode effect binds the left mouse button to ROTATE when the
    mode is ['rotate'] (the default) and to TRUCK for any other value; a
    Space keydown rebinds it to the opposite action and a Space keyup to
    the mode's own one, so keydown followed by keyup leaves the world the
    mode effect produced. *)
Theorem space_swaps_left_button_and_back
    (mode : option string) (animated : option bool) (dt : option float)
    (w : World) (cam : CameraControls)
    (Href : cameraRef w = Some cam) :
  let bound action :=
    mkWorld (Some (withLeft action cam)) (listeners w) (calls w) in
  let space := mkEvent dt (Some "Space"%string) in
  props_mode (resolveDefaultProps (mkControlsProps None animated))
    = Some "rotate"%string /\
  (mode = Some "rotate"%string ->
     modeEffect mode w = (Normal tt, bound ROTATE) /\
     onKeyDown mode space (bound ROTATE) = (Normal tt, bound TRUCK) /\
     onKeyUp mode space (bound TRUCK) = (Normal tt, bound ROTATE)) /\
  (mode <> Some "rotate"%string ->
     modeEffect mode w = (Normal tt, bound TRUCK) /\
     onKeyDown mode space (bound TRUCK) = (Normal tt, bound ROTATE) /\
     onKeyUp mode space (bound ROTATE) = (Normal tt, bound TRUCK)) /\
  (exists w1,
     modeEffect mode w = (Normal tt, w1) /\
     (onKeyDown mode space ;; onKeyUp mode space) w1 = (Normal tt, w1) /\
     (mode = Some "rotate"%string ->
        option_map (fun c => left (mouseButtons c)) (cameraRef w1)
          = Some ROTATE) /\
     (mode <> Some "rotate"%string ->
        option_map (fun c => left (mouseButtons c)) (cameraRef w1)
          = Some TRUCK)).
Proof.
  intros bound space.
  split; [reflexivity|].
  split; [|split].
  - intros Hm. apply is_rotate_true in Hm.
    unfold modeEffect, onKeyDown, onKeyUp, setMouseLeft. simpl.
    rewrite Hm, Href. repeat split.
  - intros Hm. apply is_rotate_false in Hm.
    unfold modeEffect, onKeyDown, onKeyUp, setMouseLeft. simpl.
    rewrite Hm, Href. repeat split.
  - destruct (is_rotate mode) eqn:Hm.
    + exists (bound ROTATE).
      unfold modeEffect, onKeyDown, onKeyUp, setMouseLeft, bind. simpl.
      rewrite Hm, Href. repeat split.
      intros Hne. apply is_rotate_false in Hne. congruence.
    + exists (bound TRUCK).
      unfold modeEffect, onKeyDown, onKeyUp, setMouseLeft, bind. simpl.
      rewrite Hm, Href. repeat split.
      intros He. apply is_rotate_true in He. congruence.
Qed.

Lemma space_swaps_left_button_and_back_witness :
  exists w1,
    modeEffect (Some "pan"%string) Samples.mountedWorld = (Normal tt, w1) /\
    (onKeyDown (Some "pan"%string) (mkEvent None (Some "Space"%string)) ;;
     onKeyUp (Some "pan"%string) (mkEvent None (Some "Space"%string))) w1
      = (Normal tt, w1) /\
    option_map (fun c => left (mouseButtons c)) (cameraRef w1) = Some TRUCK.
Proof.
  pose proof (space_swaps_left_button_and_back (Some "pan"%string) None None
                Samples.mountedWorld Samples.freshCamera eq_refl) as H.
  cbv zeta in H.
  destruct H as [_ [_ [_ [w1 [Hmode [Hround [_ Htruck]]]]]]].
  exists w1. split; [exact Hmode | split; [exact Hround|]].
  apply Htruck. discriminate.
Defined.

(** C8.  The four arrow keys are watched with a hold interval of 100 ms.
    Running the key listener effect registers the pan callbacks on the
    arrow-key emitters and the Space handlers on the window, so that a
    ['holding'] event of a key reaches the matching pan callback with
    that event; running the cleanup the effect returned removes every one
    of the six listeners and leaves the rest of the table, the camera ref
    and the call log alone.  On a table that was empty the dispatches are
    exactly the callbacks and the table is empty again afterwards. *)
Theorem key_listeners_attached_then_removed
    (mode : option string) (animated : option bool) (w : World)
    (Hnodup : NoDup (listeners w)) :
  map (fun k => (kh_keyCode k, kh_holdIntervalDelay k, kh_target k))
      [leftKey; rightKey; upKey; downKey]
    = [(37, 100, LeftKey); (39, 100, RightKey);
       (38, 100, UpKey); (40, 100, DownKey)]%nat /\
  exists w1 w2,
    keyListenerEffect mode animated w
      = (Normal (keyListenerCleanup mode animated), w1) /\
    (forall l, In l (listeners w1) <->
               In l (listeners w) \/ In l (keyListeners mode animated)) /\
    In (HPanLeft animated) (handlersFor LeftKey "holding" (listeners w1)) /\
    In (HPanRight animated) (handlersFor RightKey "holding" (listeners w1)) /\
    In (HPanUp animated) (handlersFor UpKey "holding" (listeners w1)) /\
    In (HPanDown animated) (handlersFor DownKey "holding" (listeners w1)) /\
    In (HOnKeyDown mode) (handlersFor Window "keydown" (listeners w1)) /\
    In (HOnKeyUp mode) (handlersFor Window "keyup" (listeners w1)) /\
    keyListenerCleanup mode animated w1 = (Normal tt, w2) /\
    (forall l, In l (keyListeners mode animated) -> ~ In l (listeners w2)) /\
    (forall l, ~ In l (keyListeners mode animated) ->
               (In l (listeners w2) <-> In l (listeners w))) /\
    cameraRef w2 = cameraRef w /\
    calls w2 = calls w /\
    (listeners w = [] ->
       listeners w2 = [] /\
       forall event,
         dispatchEvent LeftKey "holding" event w1
           = panLeft animated event w1 /\
         dispatchEvent RightKey "holding" event w1
           = panRight animated event w1 /\
         dispatchEvent UpKey "holding" event w1
           = panUp animated event w1 /\
         dispatchEvent DownKey "holding" event w1
           = panDown animated event w1 /\
         dispatchEvent Window "keydown" event w1
           = onKeyDown mode event w1 /\
         dispatchEvent Window "keyup" event w1
           = onKeyUp mode event w1).
Proof.
  split; [reflexivity|].
  set (batch := keyListeners mode animated).
  set (w1 := mkWorld (cameraRef w) (add_all batch (listeners w)) (calls w)).
  set (w2 := mkWorld (cameraRef w1) (remove_all batch (listeners w1)) (calls w1)).
  assert (Hin1 : forall l, In l (listeners w1) <->
                           In l (listeners w) \/ In l batch)
    by (intros l; apply add_all_In).
  assert (Hnd1 : NoDup (listeners w1)) by (now apply add_all_NoDup).
  assert (Hbatch : forall l, In l batch -> In l (listeners w1))
    by (intros l Hl; apply Hin1; now right).
  exists w1, w2.
  split; [apply keyListenerEffect_run|].
  split; [exact Hin1|].
  do 6 (split; [apply handlersFor_In, Hbatch; subst batch; simpl; tauto|]).
  split; [apply keyListenerCleanup_run|].
  split; [intros l Hl; now apply remove_all_gone|].
  split.
  { intros l Hl. split.
    - intros H. apply remove_all_subset in H. apply Hin1 in H.
      destruct H as [H|H]; [exact H | contradiction].
    - intros H. apply remove_all_other; [exact Hl|].
      apply Hin1. now left. }
  split; [reflexivity|split; [reflexivity|]].
  intros Hempty. split.
  - destruct (listeners w2) as [|x xs] eqn:E; [reflexivity|].
    exfalso.
    assert (Hx : In x (listeners w2)) by (rewrite E; now left).
    pose proof Hx as Hx1. apply remove_all_subset in Hx1.
    apply Hin1 in Hx1. rewrite Hempty in Hx1.
    destruct Hx1 as [[]|Hx1].
    exact (remove_all_gone batch (listeners w1) x Hnd1 Hx1 Hx).
  - intros event.
    assert (Hl1 : listeners w1 = batch).
    { subst w1; simpl. rewrite Hempty. apply add_all_keyListeners_fresh. }
    unfold dispatchEvent. rewrite Hl1. subst batch.
    repeat split; apply bind_ret_r.
Qed.

Lemma key_listeners_attached_then_removed_witness :
  exists w1 w2,
    keyListenerEffect (Some "rotate"%string) (Some true) Samples.mountedWorld
      = (Normal (keyListenerCleanup (Some "rotate"%string) (Some true)), w1) /\
    dispatchEvent LeftKey "holding" (mkEvent (Some 16) None) w1
      = panLeft (Some true) (mkEvent (Some 16) None) w1 /\
    keyListenerCleanup (Some "rotate"%string) (Some true) w1 = (Normal tt, w2) /\
    listeners w2 = [].
Proof.
  destruct (key_listeners_attached_then_removed
              (Some "rotate"%string) (Some true) Samples.mountedWorld)
    as [_ [w1 [w2 H]]].
  - constructor.
  - destruct H as [Hrun [_ [_ [_ [_ [_ [_ [_ [Hclean [_ [_ [_ [_ Hfresh]]]]]]]]]]]]].
    destruct (Hfresh eq_refl) as [Hempty Hdispatch].
    exists w1, w2.
    split; [exact Hrun|].
    split; [exact (proj1 (Hdispatch (mkEvent (Some 16) None)))|].
    split; [exact Hclean | exact Hempty].
Defined.


(** C10.  The update/control listener effect registers its listeners only
    under [!ref]: on an attached ref the body adds no listener and leaves
    the world as it was, and on a null ref the body throws the TypeError
    of calling [addEventListener] on null. *)
Theorem control_listener_guard
    (controls : option CameraControls) (w : World) :
  (forall cam, cameraRef w = Some cam ->
     controlListenerEffect controls w
       = (Normal (controlListenerCleanup controls (Some cam)), w)) /\
  (cameraRef w = None ->
     controlListenerEffect controls w
       = (Throw (TypeError
                   "Cannot read properties of null (reading 'addEventListener')"),
          w)).
Proof.
  unfold controlListenerEffect, bind, readRef.
  split.
  - intros cam Href. rewrite Href. reflexivity.
  - intros Href. rewrite Href. reflexivity.
Qed.

Lemma control_listener_guard_witness :
  controlListenerEffect None Samples.mountedWorld
    = (Normal (controlListenerCleanup None (Some Samples.freshCamera)),
       Samples.mountedWorld) /\
  controlListenerEffect None Samples.emptyWorld
    = (Throw (TypeError
                "Cannot read properties of null (reading 'addEventListener')"),
       Samples.emptyWorld).
Proof.
  split.
  - exact (proj1 (control_listener_guard None Samples.mountedWorld)
                 Samples.freshCamera eq_refl).
  - exact (proj2 (control_listener_guard None Samples.emptyWorld) eq_refl).
Defined.

End ControlsFacts.

(* ------------------------------------------------------------------ *)
(** * Further properties of GraphRenderer                               *)
(* ------------------------------------------------------------------ *)

Module GraphRendererExtras.

Import GraphRenderer.
Import GraphRendererFacts.

(** When no two nodes share an id, looking a node's id up gives back that
    node. *)
Lemma findNode_own_id (nodes : list GraphNode) (n : GraphNode) :
  NoDup (map node_id nodes) -> In n nodes ->
  findNode nodes (node_id n) = Some n.
Proof.
  unfold findNode.
  induction nodes as [|x xs IH]; intros Hnd Hin; [destruct Hin|].
  simpl in Hnd. inversion Hnd as [|? ? Hx Hxs]; subst.
  simpl. destruct Hin as [->|Hin].
  - now rewrite String.eqb_refl.
  - destruct (String.eqb (node_id x) (node_id n)) eqn:E.
    + apply String.eqb_eq in E. exfalso. apply Hx. rewrite E.
      now apply in_map.
    + now apply IH.
Qed.

(** Reducing over the ids of nodes that are each the first of their id
    collects those very nodes. *)
Lemma reduce_collect_own_ids (nodes l : list GraphNode) :
  (forall n, In n l -> findNode nodes (node_id n) = Some n) ->
  forall acc,
    reduce (collect nodes) (map node_id l) acc = Normal (acc ++ l).
Proof.
  induction l as [|x xs IH]; intros Hown acc; simpl.
  - now rewrite app_nil_r.
  - unfold collect at 1. rewrite (Hown x) by now left.
    rewrite IH by (intros n Hn; apply Hown; now right).
    now rewrite <- app_assoc.
Qed.

(** X1.  On a non-empty nodes list without repeated ids, asking
    [centerGraph] for the ids of all nodes, in the nodes' order, is the
    same as calling it without a list: both invoke [centerNodes] with the
    nodes list itself. *)
Theorem centerGraph_all_ids_is_default
    (nodes : list GraphNode) (w : World)
    (Hne : nodes <> [])
    (Hnodup : NoDup (map node_id nodes)) :
  centerGraph nodes (Some (map node_id nodes)) w = centerGraph nodes None w /\
  centerGraph nodes None w
    = (Normal tt, logged w [CenterNodes (Nodes nodes)]).
Proof.
  split; [|reflexivity].
  destruct nodes as [|x xs]; [contradiction|].
  unfold centerGraph, bind, liftC.
  replace (length_truthy (Some (map node_id (x :: xs)))) with true
    by reflexivity.
  rewrite (reduce_collect_own_ids (x :: xs) (x :: xs)).
  - reflexivity.
  - intros n Hn. now apply findNode_own_id.
Qed.

Lemma centerGraph_all_ids_is_default_witness :
  centerGraph [Samples.nodeA; Samples.nodeB; Samples.nodeC]
              (Some ["a"; "b"; "c"]) Samples.mountedWorld
    = centerGraph [Samples.nodeA; Samples.nodeB; Samples.nodeC] None
                  Samples.mountedWorld.
Proof.
  refine (proj1 (centerGraph_all_ids_is_default
                   [Samples.nodeA; Samples.nodeB; Samples.nodeC]
                   Samples.mountedWorld _ _)).
  - discriminate.
  - simpl. repeat constructor; simpl; intuition discriminate.
Defined.

(** [find] stops at the first node carrying the id: no node before the
    one it returns carries it. *)
Lemma findNode_first_split (nodes : list GraphNode) (id : string)
    (first : GraphNode) :
  findNode nodes id = Some first ->
  exists pre post,
    nodes = pre ++ first :: post /\
    (forall m, In m pre -> node_id m <> id).
Proof.
  unfold findNode.
  induction nodes as [|x xs IH]; simpl; [discriminate|].
  destruct (String.eqb (node_id x) id) eqn:E.
  - intros H. injection H as <-. exists [], xs. split; [reflexivity|].
    intros m [].
  - intros H. destruct (IH H) as [pre [post [Heq Hpre]]].
    exists (x :: pre), post. split; [simpl; now rewrite Heq|].
    intros m [<-|Hm]; [now apply String.eqb_neq | now apply Hpre].
Qed.

(** X2.  [centerGraph] with the single id of a node [n] of the list
    centers the first node of the list that carries this id: no node
    before the centered one carries it.  When no node before [n] carries
    the id, the centered node is [n] itself; when a node before [n]
    carries it, the centered node is one of the nodes before [n] and not
    [n].  When ids are not repeated at all the call does what a click on
    the node does without a callback. *)
Theorem centerGraph_single_id_centers_first_match
    (nodes : list GraphNode) (n : GraphNode) (w : World)
    (Hin : In n nodes) :
  exists pre first post,
    nodes = pre ++ first :: post /\
    (forall m, In m pre -> node_id m <> node_id n) /\
    findNode nodes (node_id n) = Some first /\
    In first nodes /\
    node_id first = node_id n /\
    centerGraph nodes (Some [node_id n]) w
      = (Normal tt, logged w [CenterNodes (Nodes [first])]) /\
    (forall pre' post',
       nodes = pre' ++ n :: post' ->
       ((forall m, In m pre' -> node_id m <> node_id n) ->
          pre' = pre /\ first = n) /\
       ((exists m, In m pre' /\ node_id m = node_id n) ->
          exists between, pre' = pre ++ first :: between)) /\
    (NoDup (map node_id nodes) ->
       first = n /\
       centerGraph nodes (Some [node_id n]) w = nodeOnClick None n w).
Proof.
  destruct (findNode_known nodes (node_id n)) as [first Hfirst];
    [exists n; now split|].
  destruct (findNode_first_split nodes _ _ Hfirst) as [pre [post [Hsplit Hpre]]].
  exists pre, first, post.
  destruct (findNode_Some nodes _ _ Hfirst) as [Hfin Hfid].
  assert (Hrun : centerGraph nodes (Some [node_id n]) w
                 = (Normal tt, logged w [CenterNodes (Nodes [first])])).
  { unfold centerGraph, bind, liftC. simpl. unfold collect.
    rewrite Hfirst. reflexivity. }
  split; [exact Hsplit|].
  split; [exact Hpre|].
  split; [exact Hfirst|].
  split; [exact Hfin|].
  split; [exact Hfid|].
  split; [exact Hrun|].
  split.
  - intros pre' post' Hsplit'.
    assert (Happ : pre ++ first :: post = pre' ++ n :: post')
      by (now rewrite <- Hsplit, <- Hsplit').
    apply app_eq_app in Happ.
    destruct Happ as [l [[Hl1 Hl2]|[Hl1 Hl2]]].
    + (* the centered node is not before n: it is n *)
      destruct l as [|x l'].
      * rewrite app_nil_r in Hl1. simpl in Hl2.
        injection Hl2 as Hn Hpost. subst pre.
        split; [intros _; split; [reflexivity | now symmetry]|].
        intros [m [Hm Hid]]. exfalso. exact (Hpre m Hm Hid).
      * simpl in Hl2. injection Hl2 as Hn Hpost. subst x.
        exfalso. apply (Hpre n); [|reflexivity].
        rewrite Hl1. apply in_or_app. right. now left.
    + destruct l as [|x l'].
      * rewrite app_nil_r in Hl1. simpl in Hl2.
        injection Hl2 as Hn Hpost. subst pre'.
        split; [intros _; split; [reflexivity | exact Hn]|].
        intros [m [Hm Hid]]. exfalso. exact (Hpre m Hm Hid).
      * simpl in Hl2. injection Hl2 as Hn Hpost. subst x.
        split.
        -- intros Hnone. exfalso. apply (Hnone first); [|exact Hfid].
           rewrite Hl1. apply in_or_app. right. now left.
        -- intros _. exists l'. exact Hl1.
  - intros Hnd.
    assert (Heq : first = n).
    { rewrite (findNode_own_id nodes n Hnd Hin) in Hfirst. congruence. }
    split; [exact Heq|].
    rewrite Hrun, Heq. reflexivity.
Qed.

Lemma centerGraph_single_id_centers_first_match_witness :
  exists pre first post,
    Samples.sampleNodes = pre ++ first :: post /\
    (forall m, In m pre -> node_id m <> node_id Samples.nodeA') /\
    first = Samples.nodeA /\
    centerGraph Samples.sampleNodes (Some [node_id Samples.nodeA'])
                Samples.emptyWorld
      = (Normal tt,
         logged Samples.emptyWorld [CenterNodes (Nodes [first])]).
Proof.
  destruct (centerGraph_single_id_centers_first_match
              Samples.sampleNodes Samples.nodeA' Samples.emptyWorld)
    as [pre [first [post [Hsplit [Hpre [Hfind [_ [_ [Hrun _]]]]]]]]].
  - simpl. tauto.
  - exists pre, first, post.
    split; [exact Hsplit|split; [exact Hpre|split; [|exact Hrun]]].
    simpl in Hfind. congruence.
Defined.

(** X3.  When the [onNodeClick] callback throws for a node of the list,
    a click on that node's element throws the same exception right after
    the callback was invoked: [centerNodes] is not invoked. *)
Theorem node_click_callback_throws
    (Graph : Type) (useGraph : RestProps -> GraphState Graph)
    (props : GraphRendererProps) (cb : NodeClickCallback)
    (n : GraphNode) (e : JsError) (w : World)
    (Hin : In n (gs_nodes (useGraph (rest props))))
    (Hcb : props_onNodeClick props = Some cb)
    (Hthrows : cb (node_id n) = Throw e) :
  exists el,
    In el (children (GraphRenderer useGraph props)) /\
    el = renderNode (gs_graph (useGraph (rest props))) (Some cb) n /\
    click el w = (Throw e, logged w [OnNodeClick (node_id n)]).
Proof.
  eexists. split; [|split; [reflexivity|]].
  - unfold GraphRenderer; simpl. unfold render. rewrite Hcb.
    apply in_or_app. left.
    exact (in_map (renderNode _ (Some cb)) _ n Hin).
  - simpl. unfold nodeOnClick, callOnNodeClick, bind, call, liftC.
    rewrite Hthrows. reflexivity.
Qed.

Lemma node_click_callback_throws_witness :
  exists el,
    In el (children (GraphRenderer Samples.plainUseGraph
             (mkProps None Samples.sampleNodes Samples.sampleEdges
                      None None None
                      (Some (fun _ => Throw (Error "host")))))) /\
    click el Samples.emptyWorld
      = (Throw (Error "host"), logged Samples.emptyWorld [OnNodeClick "b"]).
Proof.
  destruct (node_click_callback_throws unit Samples.plainUseGraph
              (mkProps None Samples.sampleNodes Samples.sampleEdges
                       None None None
                       (Some (fun _ => Throw (Error "host"))))
              (fun _ => Throw (Error "host")) Samples.nodeB
              (Error "host") Samples.emptyWorld)
    as [el [Hel [_ Hclick]]].
  - simpl. tauto.
  - reflexivity.
  - reflexivity.
  - exists el. split; [exact Hel | exact Hclick].
Defined.

(** X4.  Whatever it is called with, [centerGraph] leaves the camera ref
    and the listener table alone and either throws without any outgoing
    call, or returns after exactly one outgoing call, to [centerNodes]. *)
Theorem centerGraph_one_call_or_throw
    (nodes : list GraphNode) (nodesToCenter : option (list string))
    (w : World) :
  cameraRef (snd (centerGraph nodes nodesToCenter w)) = cameraRef w /\
  listeners (snd (centerGraph nodes nodesToCenter w)) = listeners w /\
  ((exists e, centerGraph nodes nodesToCenter w = (Throw e, w)) \/
   (exists a, centerGraph nodes nodesToCenter w
              = (Normal tt, logged w [CenterNodes a]))).
Proof.
  destruct nodesToCenter as [[|i rest]|].
  - repeat split. right. now exists (Ids []).
  - unfold centerGraph, bind, liftC.
    replace (length_truthy (Some (i :: rest))) with true by reflexivity.
    destruct (reduce (collect nodes) (i :: rest) []) as [mapped|e].
    + repeat split. right. now exists (Nodes mapped).
    + repeat split. left. now exists e.
  - repeat split. right. now exists (Nodes nodes).
Qed.

End GraphRendererExtras.

(* ------------------------------------------------------------------ *)
(** * Further properties of Controls                                    *)
(* ------------------------------------------------------------------ *)

From Stdlib Require Import ZArith FloatAxioms SpecFloat FloatOps.

Module ControlsExtras.

Import Controls.
Import ControlsFacts.

Open Scope float_scope.

(** ** Negation in binary64 arithmetic *)

(** Rounding only carries the sign along. *)
Lemma binary_round_aux_negb (prec emax : Z) (s : bool) (m e : Z)
    (l : location) :
  SFopp (binary_round_aux prec emax s m e l)
    = binary_round_aux prec emax (negb s) m e l.
Proof.
  unfold binary_round_aux.
  destruct (shr_fexp prec emax m e l) as [mrs' e'].
  destruct (shr_fexp prec emax _ e' loc_Exact) as [mrs'' e''].
  destruct (shr_m mrs''); try reflexivity.
  destruct (Z.leb e'' (Z.sub emax prec)); reflexivity.
Qed.

Lemma SFmul_SFopp_l (prec emax : Z) (x y : spec_float) :
  SFmul prec emax (SFopp x) y = SFopp (SFmul prec emax x y).
Proof.
  destruct x as [sx|sx| |sx mx ex], y as [sy|sy| |sy my ey]; simpl;
    rewrite ?binary_round_aux_negb, ?negb_xorb_l; reflexivity.
Qed.

Lemma SFdiv_SFopp_l (prec emax : Z) (x y : spec_float) :
  SFdiv prec emax (SFopp x) y = SFopp (SFdiv prec emax x y).
Proof.
  destruct x as [sx|sx| |sx mx ex], y as [sy|sy| |sy my ey]; simpl;
    rewrite ?negb_xorb_l; try reflexivity.
  destruct (SFdiv_core_binary prec emax (Z.pos mx) ex (Z.pos my) ey)
    as [[mz ez] lz].
  now rewrite binary_round_aux_negb, negb_xorb_l.
Qed.

Lemma Prim2SF_injective (x y : float) : Prim2SF x = Prim2SF y -> x = y.
Proof.
  intros H.
  rewrite <- (SF2Prim_Prim2SF x), <- (SF2Prim_Prim2SF y). now rewrite H.
Qed.

Lemma float_mul_opp_l (x y : float) : (- x) * y = - (x * y).
Proof.
  apply Prim2SF_injective.
  rewrite mul_spec, !opp_spec, mul_spec. apply SFmul_SFopp_l.
Qed.

Lemma float_div_opp_l (x y : float) : (- x) / y = - (x / y).
Proof.
  apply Prim2SF_injective.
  rewrite div_spec, !opp_spec, div_spec. apply SFdiv_SFopp_l.
Qed.

(** The literal of [panRight] and [panDown]. *)
Lemma minus_three_hundredths (x : float) : -0.03 * x = - (0.03 * x).
Proof. exact (float_mul_opp_l 0.03 x). Qed.

(** ** Worlds and listener tables *)

Lemma world_eta (w : World) :
  mkWorld (cameraRef w) (listeners w) (calls w) = w.
Proof. now destruct w. Qed.

Lemma logged_nil (w : World) : logged w [] = w.
Proof. unfold logged. rewrite app_nil_r. apply world_eta. Qed.

Lemma remove_listener_absent (l : Listener) (ls : list Listener) :
  ~ In l ls -> remove_listener l ls = ls.
Proof.
  induction ls as [|x xs IH]; intros Hnot; simpl; [reflexivity|].
  destruct (Listener_eq_dec l x) as [->|Hne].
  - exfalso. apply Hnot. now left.
  - f_equal. apply IH. intros H. apply Hnot. now right.
Qed.

Lemma remove_listener_appended (l : Listener) (ls rest : list Listener) :
  ~ In l ls -> remove_listener l (ls ++ l :: rest) = ls ++ rest.
Proof.
  induction ls as [|x xs IH]; intros Hnot; simpl.
  - destruct (Listener_eq_dec l l); [reflexivity | congruence].
  - destruct (Listener_eq_dec l x) as [->|Hne].
    + exfalso. apply Hnot. now left.
    + f_equal. apply IH. intros H. apply Hnot. now right.
Qed.

Lemma add_listener_fresh (l : Listener) (ls : list Listener) :
  ~ In l ls -> add_listener l ls = ls ++ [l].
Proof.
  intros Hnot. unfold add_listener.
  destruct (has_listener l ls) eqn:E; [|reflexivity].
  apply has_listener_In in E. contradiction.
Qed.

(** A batch of distinct listeners, none of them in the table, is appended
    by [add_all] and taken out again by [remove_all]. *)
Lemma add_all_fresh (batch : list Listener) :
  forall ls,
    NoDup batch -> (forall l, In l batch -> ~ In l ls) ->
    add_all batch ls = ls ++ batch.
Proof.
  induction batch as [|b rest IH]; intros ls Hnd Hfresh.
  - simpl. now rewrite app_nil_r.
  - inversion Hnd as [|? ? Hb Hrest]; subst.
    unfold add_all in *. simpl.
    rewrite add_listener_fresh by (apply Hfresh; now left).
    rewrite IH; [now rewrite <- app_assoc | exact Hrest |].
    intros l Hl Hin. apply in_app_or in Hin. destruct Hin as [Hin|[<-|[]]].
    + apply (Hfresh l); [now right | exact Hin].
    + contradiction.
Qed.

Lemma remove_all_appended (batch : list Listener) :
  forall ls,
    NoDup batch -> (forall l, In l batch -> ~ In l ls) ->
    remove_all batch (ls ++ batch) = ls.
Proof.
  induction batch as [|b rest IH]; intros ls Hnd Hfresh.
  - simpl. now rewrite app_nil_r.
  - inversion Hnd as [|? ? Hb Hrest]; subst.
    unfold remove_all in *. simpl.
    rewrite remove_listener_appended by (apply Hfresh; now left).
    apply IH; [exact Hrest|].
    intros l Hl. apply Hfresh. now right.
Qed.

Lemma keyListeners_NoDup (mode : option string) (animated : option bool) :
  NoDup (keyListeners mode animated).
Proof.
  unfold keyListeners.
  repeat (constructor; [simpl; intuition discriminate|]).
  constructor.
Qed.

Lemma keyListeners_not_Camera (mode : option string)
    (animated : option bool) (l : Listener) :
  In l (keyListeners mode animated) -> l_target l <> Camera.
Proof.
  unfold keyListeners. simpl.
  intros [<-|[<-|[<-|[<-|[<-|[<-|[]]]]]]]; discriminate.
Qed.

(** No handler is reached on a target nothing is registered on. *)
Lemma handlersFor_no_target (t : Target) (type : string)
    (ls : list Listener) :
  (forall l, In l ls -> l_target l <> t) -> handlersFor t type ls = [].
Proof.
  intros H. unfold handlersFor.
  induction ls as [|x xs IH]; simpl; [reflexivity|].
  unfold listens at 1.
  destruct (Target_eq_dec (l_target x) t) as [E|E].
  - exfalso. apply (H x); [now left | exact E].
  - simpl. apply IH. intros l Hl. apply H. now right.
Qed.

Lemma code_is_Space_false (event : Event) :
  code event <> Some "Space"%string -> code_is_Space event = false.
Proof.
  unfold code_is_Space. destruct (code event) as [c|]; [|reflexivity].
  intros H. apply String.eqb_neq. congruence.
Qed.

(** The world a mount produces when the component's key listeners were
    not registered before. *)
Lemma mount_unregistered (mode : option string) (animated : option bool)
    (controls : option CameraControls) (cam : CameraControls) (w0 : World) :
  (forall l, In l (keyListeners mode animated) -> ~ In l (listeners w0)) ->
  mount mode animated controls cam w0
    = (Normal [disposeCleanup; keyListenerCleanup mode animated;
               controlListenerCleanup controls (Some cam)],
       mkWorld (Some (withLeft (if is_rotate mode then ROTATE else TRUCK) cam))
               (listeners w0 ++ keyListeners mode animated)
               (calls w0)).
Proof.
  intros Hfresh. rewrite mount_run.
  rewrite (add_all_fresh _ _ (keyListeners_NoDup mode animated) Hfresh).
  reflexivity.
Qed.

(** The update/control listener effect on an attached ref. *)
Lemma control_listener_effect_attached
    (controls : option CameraControls) (w : World) (cam : CameraControls) :
  cameraRef w = Some cam ->
  controlListenerEffect controls w
    = (Normal (controlListenerCleanup controls (Some cam)), w).
Proof.
  intros Href. unfold controlListenerEffect, bind, readRef.
  rewrite Href. reflexivity.
Qed.

(** ** Pan and zoom *)

Lemma optional_camera_call (c : Call) (w : World) :
  exists cs,
    (withCamera (call c) ;; call Invalidate) w
      = (Normal tt, logged w (cs ++ [Invalidate])) /\
    (cameraRef w = None -> cs = []) /\
    (cameraRef w <> None -> exists c', cs = [c']).
Proof.
  destruct (cameraRef w) as [cam|] eqn:E.
  - exists [c]. split; [exact (camera_call_then_invalidate c w cam E)|].
    split; [discriminate | now exists c].
  - exists []. split; [exact (camera_call_skipped c w E)|].
    split; [reflexivity | congruence].
Qed.

(** X5.  In every world, with the camera ref attached or null, and for
    every event, with or without a [deltaTime], the two zoom and the four
    pan callbacks return without throwing, leave the camera ref and the
    listener table as they were, make at most one call to the camera
    controls (none on a null ref) and end with [invalidate]. *)
Theorem pan_zoom_always_invalidate
    (animated : option bool) (camera_zoom : float) (event : Event)
    (w : World) :
  Forall
    (fun op : M unit =>
       exists cs,
         op w = (Normal tt, logged w (cs ++ [Invalidate])) /\
         (cameraRef w = None -> cs = []) /\
         (cameraRef w <> None -> exists c, cs = [c]))
    [ zoomIn animated camera_zoom; zoomOut animated camera_zoom;
      panLeft animated event; panRight animated event;
      panUp animated event; panDown animated event ].
Proof.
  repeat constructor; apply optional_camera_call.
Qed.

(** X6.  With the camera controls attached, the amount [panRight] trucks
    by is exactly the negation of the amount [panLeft] trucks by for the
    same event, [panDown]'s is the negation of [panUp]'s, and the step of
    [zoomOut] is the negation of the step of [zoomIn]. *)
Theorem opposite_operations_negate
    (animated : option bool) (camera_zoom : float) (event : Event)
    (w : World) (cam : CameraControls)
    (Href : cameraRef w = Some cam) :
  let amount := 0.03 * deltaTime_number event in
  let step := camera_zoom / 2 in
  panLeft animated event w
    = (Normal tt, logged w [Truck amount 0 animated; Invalidate]) /\
  panRight animated event w
    = (Normal tt, logged w [Truck (- amount) 0 animated; Invalidate]) /\
  panUp animated event w
    = (Normal tt, logged w [Truck 0 amount animated; Invalidate]) /\
  panDown animated event w
    = (Normal tt, logged w [Truck 0 (- amount) animated; Invalidate]) /\
  zoomIn animated camera_zoom w
    = (Normal tt, logged w [Zoom step animated; Invalidate]) /\
  zoomOut animated camera_zoom w
    = (Normal tt, logged w [Zoom (- step) animated; Invalidate]).
Proof.
  intros amount step. subst amount step.
  rewrite <- minus_three_hundredths, <- float_div_opp_l.
  repeat split;
    [ unfold panLeft | unfold panRight | unfold panUp | unfold panDown
    | unfold zoomIn | unfold zoomOut ];
    exact (camera_call_then_invalidate _ w cam Href).
Qed.

Lemma opposite_operations_negate_witness :
  panRight None (mkEvent (Some 16) None) Samples.mountedWorld
    = (Normal tt,
       logged Samples.mountedWorld
              [Truck (- (0.03 * 16)) 0 None; Invalidate]) /\
  zoomOut None 3 Samples.mountedWorld
    = (Normal tt,
       logged Samples.mountedWorld [Zoom (- (3 / 2)) None; Invalidate]).
Proof.
  pose proof (opposite_operations_negate None 3 (mkEvent (Some 16) None)
                Samples.mountedWorld Samples.freshCamera eq_refl) as H.
  cbv zeta in H. destruct H as [_ [Hr [_ [_ [_ Ho]]]]].
  split; [exact Hr | exact Ho].
Defined.

(** ** The Space key *)

(** X7.  With the camera controls attached, a repeated Space keydown (as
    key auto-repeat produces) changes nothing after the first one, a
    repeated keyup likewise, and a Space keyup does exactly what the mode
    effect does: it binds the left button to the mode's action whatever
    it was bound to before. *)
Theorem space_key_repeat_is_idempotent
    (mode : option string) (dt : option float)
    (w : World) (cam : CameraControls)
    (Href : cameraRef w = Some cam) :
  let space := mkEvent dt (Some "Space"%string) in
  (onKeyDown mode space ;; onKeyDown mode space) w = onKeyDown mode space w /\
  (onKeyUp mode space ;; onKeyUp mode space) w = onKeyUp mode space w /\
  onKeyUp mode space w = modeEffect mode w /\
  (onKeyUp mode space ;; onKeyDown mode space) w = onKeyDown mode space w.
Proof.
  intros space.
  unfold onKeyDown, onKeyUp, modeEffect, bind. simpl.
  destruct (is_rotate mode); unfold setMouseLeft; rewrite Href; simpl;
    repeat split.
Qed.

Lemma space_key_repeat_is_idempotent_witness :
  (onKeyDown (Some "rotate"%string) (mkEvent None (Some "Space"%string)) ;;
   onKeyDown (Some "rotate"%string) (mkEvent None (Some "Space"%string)))
    Samples.mountedWorld
    = onKeyDown (Some "rotate"%string) (mkEvent None (Some "Space"%string))
                Samples.mountedWorld.
Proof.
  exact (proj1 (space_key_repeat_is_idempotent (Some "rotate"%string) None
                  Samples.mountedWorld Samples.freshCamera eq_refl)).
Defined.

(** X8.  A key event whose code is not ['Space'] (or that has no code)
    leaves the world exactly as it was and never throws, in both key
    handlers and also when the camera ref is null. *)
Theorem other_keys_are_ignored
    (mode : option string) (event : Event) (w : World)
    (Hother : code event <> Some "Space"%string) :
  onKeyDown mode event w = (Normal tt, w) /\
  onKeyUp mode event w = (Normal tt, w).
Proof.
  unfold onKeyDown, onKeyUp.
  rewrite (code_is_Space_false event Hother). split; reflexivity.
Qed.

Lemma other_keys_are_ignored_witness :
  onKeyDown (Some "rotate"%string) (mkEvent None (Some "Enter"%string))
            Samples.emptyWorld
    = (Normal tt, Samples.emptyWorld) /\
  onKeyUp (Some "rotate"%string) (mkEvent None (Some "Enter"%string))
          Samples.emptyWorld
    = (Normal tt, Samples.emptyWorld).
Proof.
  apply (other_keys_are_ignored (Some "rotate"%string)
           (mkEvent None (Some "Enter"%string)) Samples.emptyWorld).
  discriminate.
Defined.

(** X9.  While the camera ref is null, the mode effect and both Space
    handlers throw the TypeError of reading [mouseButtons] of null, for
    every mode, and change nothing. *)
Theorem null_ref_mouse_binding_throws
    (mode : option string) (dt : option float) (w : World)
    (Hnull : cameraRef w = None) :
  let space := mkEvent dt (Some "Space"%string) in
  let failure :=
    (@Throw unit
       (TypeError "Cannot read properties of null (reading 'mouseButtons')"),
     w) in
  modeEffect mode w = failure /\
  onKeyDown mode space w = failure /\
  onKeyUp mode space w = failure.
Proof.
  intros space failure. subst space failure.
  unfold modeEffect, onKeyDown, onKeyUp. simpl.
  destruct (is_rotate mode); unfold setMouseLeft; rewrite Hnull;
    repeat split.
Qed.

Lemma null_ref_mouse_binding_throws_witness :
  modeEffect (Some "pan"%string) Samples.emptyWorld
    = (Throw (TypeError
                "Cannot read properties of null (reading 'mouseButtons')"),
       Samples.emptyWorld).
Proof.
  exact (proj1 (null_ref_mouse_binding_throws (Some "pan"%string) None
                  Samples.emptyWorld eq_refl)).
Defined.

(** ** Effects and their cleanups *)

(** X10.  On an attached ref, and with no ['update'] or ['control']
    invalidate listener on the camera controls beforehand, running the
    update/control listener effect and then the cleanup it returned leaves
    the world exactly as it was, whether [controls] is set or not: the
    cleanup removes listeners that were never added. *)
Theorem control_effect_then_cleanup_changes_nothing
    (controls : option CameraControls) (w : World) (cam : CameraControls)
    (Href : cameraRef w = Some cam)
    (Hupdate : ~ In (mkListener Camera "update" HInvalidate) (listeners w))
    (Hcontrol : ~ In (mkListener Camera "control" HInvalidate) (listeners w)) :
  (cleanup <- controlListenerEffect controls ;; cleanup) w = (Normal tt, w).
Proof.
  unfold bind at 1.
  rewrite (control_listener_effect_attached controls w cam Href).
  unfold controlListenerCleanup.
  destruct controls as [c|]; simpl; [|reflexivity].
  unfold bind, removeEventListener. simpl.
  rewrite (remove_listener_absent _ _ Hupdate).
  rewrite (remove_listener_absent _ _ Hcontrol).
  now rewrite world_eta.
Qed.

Lemma control_effect_then_cleanup_changes_nothing_witness :
  (cleanup <- controlListenerEffect (Some Samples.freshCamera) ;; cleanup)
    Samples.mountedWorld
    = (Normal tt, Samples.mountedWorld).
Proof.
  apply (control_effect_then_cleanup_changes_nothing
           (Some Samples.freshCamera) Samples.mountedWorld
           Samples.freshCamera eq_refl); simpl; tauto.
Defined.

(** X11.  After a mount into a world where nothing listens on the camera
    controls, an ['update'], ['control'] or any other event of the camera
    controls reaches no handler: it changes nothing and does not call
    [invalidate]. *)
Theorem camera_events_reach_no_handler
    (mode : option string) (animated : option bool)
    (controls : option CameraControls) (cam : CameraControls) (w0 : World)
    (Hnone : forall l, In l (listeners w0) -> l_target l <> Camera) :
  exists cleanups w1,
    mount mode animated controls cam w0 = (Normal cleanups, w1) /\
    forall type event, dispatchEvent Camera type event w1 = (Normal tt, w1).
Proof.
  eexists. eexists. split; [apply mount_run|].
  intros type event. unfold dispatchEvent.
  rewrite handlersFor_no_target; [reflexivity|].
  intros l Hl. cbn [listeners] in Hl. apply add_all_In in Hl.
  destruct Hl as [Hl|Hl];
    [now apply Hnone | now apply (keyListeners_not_Camera mode animated)].
Qed.

Lemma camera_events_reach_no_handler_witness :
  exists cleanups w1,
    mount (Some "rotate"%string) None None Samples.freshCamera
          Samples.emptyWorld
      = (Normal cleanups, w1) /\
    dispatchEvent Camera "update" (mkEvent None None) w1 = (Normal tt, w1).
Proof.
  destruct (camera_events_reach_no_handler (Some "rotate"%string) None None
              Samples.freshCamera Samples.emptyWorld)
    as [cleanups [w1 [Hmount Hnone]]].
  - intros l [].
  - exists cleanups, w1. split; [exact Hmount|].
    exact (Hnone "update"%string (mkEvent None None)).
Defined.

(** The handlers each event of the key listener effect reaches when the
    six listeners are the whole table. *)
Lemma handlersFor_keyListeners (mode : option string)
    (animated : option bool) :
  let ls := keyListeners mode animated in
  handlersFor LeftKey "holding" ls = [HPanLeft animated] /\
  handlersFor RightKey "holding" ls = [HPanRight animated] /\
  handlersFor UpKey "holding" ls = [HPanUp animated] /\
  handlersFor DownKey "holding" ls = [HPanDown animated] /\
  handlersFor Window "keydown" ls = [HOnKeyDown mode] /\
  handlersFor Window "keyup" ls = [HOnKeyUp mode].
Proof. repeat split. Qed.

Lemma mount_fresh (mode : option string) (animated : option bool)
    (controls : option CameraControls) (cam : CameraControls) (w0 : World) :
  listeners w0 = [] ->
  mount mode animated controls cam w0
    = (Normal [disposeCleanup; keyListenerCleanup mode animated;
               controlListenerCleanup controls (Some cam)],
       mkWorld (Some (withLeft (if is_rotate mode then ROTATE else TRUCK) cam))
               (keyListeners mode animated)
               (calls w0)).
Proof.
  intros Hempty. rewrite mount_unregistered.
  - now rewrite Hempty.
  - rewrite Hempty. intros l _ [].
Qed.

(** X12.  After a mount into a world with an empty listener table, a
    ['holding'] event of an arrow key trucks the camera: by 0.03 times the
    event's [deltaTime] to the left for the left key, by its negation for
    the right key, and likewise upwards and downwards, each followed by
    [invalidate]. *)
Theorem held_arrow_keys_truck_after_mount
    (mode : option string) (animated : option bool)
    (controls : option CameraControls) (cam : CameraControls) (w0 : World)
    (Hempty : listeners w0 = []) :
  exists cleanups w1,
    mount mode animated controls cam w0 = (Normal cleanups, w1) /\
    forall (dt : float) (key : option string),
      let event := mkEvent (Some dt) key in
      dispatchEvent LeftKey "holding" event w1
        = (Normal tt, logged w1 [Truck (0.03 * dt) 0 animated; Invalidate]) /\
      dispatchEvent RightKey "holding" event w1
        = (Normal tt, logged w1 [Truck (-0.03 * dt) 0 animated; Invalidate]) /\
      dispatchEvent UpKey "holding" event w1
        = (Normal tt, logged w1 [Truck 0 (0.03 * dt) animated; Invalidate]) /\
      dispatchEvent DownKey "holding" event w1
        = (Normal tt, logged w1 [Truck 0 (-0.03 * dt) animated; Invalidate]).
Proof.
  eexists. eexists. split; [exact (mount_fresh _ _ _ _ _ Hempty)|].
  intros dt key event.
  set (w1 := mkWorld _ _ _).
  destruct (pan_callbacks_attached animated dt key w1 _ eq_refl)
    as [Hl [Hr [Hu Hd]]].
  destruct (handlersFor_keyListeners mode animated)
    as [El [Er [Eu [Ed _]]]].
  unfold dispatchEvent. cbn [listeners w1].
  rewrite El, Er, Eu, Ed. cbn [runHandlers runHandler].
  rewrite !bind_ret_r.
  repeat split; assumption.
Qed.

Lemma held_arrow_keys_truck_after_mount_witness :
  exists cleanups w1,
    mount (Some "rotate"%string) (Some true) None Samples.freshCamera
          Samples.emptyWorld
      = (Normal cleanups, w1) /\
    dispatchEvent LeftKey "holding" (mkEvent (Some 16) None) w1
      = (Normal tt, logged w1 [Truck (0.03 * 16) 0 (Some true); Invalidate]).
Proof.
  destruct (held_arrow_keys_truck_after_mount (Some "rotate"%string)
              (Some true) None Samples.freshCamera Samples.emptyWorld
              eq_refl)
    as [cleanups [w1 [Hmount Hheld]]].
  exists cleanups, w1. split; [exact Hmount|].
  exact (proj1 (Hheld 16 None)).
Defined.

(** X13.  After a mount into a world with an empty listener table, a
    Space keydown on the window binds the left button to the action
    opposite to the mode's, and the Space keyup that follows brings back
    the world the mount produced. *)
Theorem space_on_window_round_trip_after_mount
    (mode : option string) (animated : option bool)
    (controls : option CameraControls) (cam : CameraControls) (w0 : World)
    (dt : option float)
    (Hempty : listeners w0 = []) :
  let space := mkEvent dt (Some "Space"%string) in
  exists cleanups w1 wdown,
    mount mode animated controls cam w0 = (Normal cleanups, w1) /\
    option_map (fun c => left (mouseButtons c)) (cameraRef w1)
      = Some (if is_rotate mode then ROTATE else TRUCK) /\
    dispatchEvent Window "keydown" space w1 = (Normal tt, wdown) /\
    option_map (fun c => left (mouseButtons c)) (cameraRef wdown)
      = Some (if is_rotate mode then TRUCK else ROTATE) /\
    dispatchEvent Window "keyup" space wdown = (Normal tt, w1).
Proof.
  intros space.
  destruct (handlersFor_keyListeners mode animated)
    as [_ [_ [_ [_ [Edown Eup]]]]].
  eexists. eexists.
  exists (mkWorld
            (Some (withLeft (if is_rotate mode then TRUCK else ROTATE) cam))
            (keyListeners mode animated) (calls w0)).
  split; [exact (mount_fresh _ _ _ _ _ Hempty)|].
  split; [reflexivity|].
  unfold dispatchEvent. cbn [listeners].
  rewrite Edown, Eup. cbn [runHandlers runHandler].
  rewrite !bind_ret_r.
  unfold onKeyDown, onKeyUp, setMouseLeft. simpl.
  destruct (is_rotate mode); repeat split.
Qed.

Lemma space_on_window_round_trip_after_mount_witness :
  exists cleanups w1 wdown,
    mount None None None Samples.freshCamera Samples.emptyWorld
      = (Normal cleanups, w1) /\
    dispatchEvent Window "keydown" (mkEvent None (Some "Space"%string)) w1
      = (Normal tt, wdown) /\
    option_map (fun c => left (mouseButtons c)) (cameraRef wdown)
      = Some ROTATE /\
    dispatchEvent Window "keyup" (mkEvent None (Some "Space"%string)) wdown
      = (Normal tt, w1).
Proof.
  destruct (space_on_window_round_trip_after_mount None None None
              Samples.freshCamera Samples.emptyWorld None eq_refl)
    as [cleanups [w1 [wdown [Hmount [_ [Hdown [Hleft Hup]]]]]]].
  exists cleanups, w1, wdown.
  split; [exact Hmount|split; [exact Hdown|split; [exact Hleft|exact Hup]]].
Defined.

(** X14.  A mount followed by the unmount of its cleanups gives the
    listener table back exactly as it was, provided the component's six
    key listeners and the two camera invalidate listeners were not
    registered before; the pair makes no outgoing call and ends with a
    null ref, so from a world whose ref was null it gives back that very
    world. *)
Theorem mount_then_unmount_restores_listeners
    (mode : option string) (animated : option bool)
    (controls : option CameraControls) (cam : CameraControls) (w0 : World)
    (Hkeys : forall l, In l (keyListeners mode animated) ->
                       ~ In l (listeners w0))
    (Hupdate : ~ In (mkListener Camera "update" HInvalidate) (listeners w0))
    (Hcontrol : ~ In (mkListener Camera "control" HInvalidate) (listeners w0)) :
  (cleanups <- mount mode animated controls cam ;; unmount cleanups) w0
    = (Normal tt, mkWorld None (listeners w0) (calls w0)) /\
  (cameraRef w0 = None ->
   (cleanups <- mount mode animated controls cam ;; unmount cleanups) w0
     = (Normal tt, w0)).
Proof.
  assert (Hrun : (cleanups <- mount mode animated controls cam ;;
                  unmount cleanups) w0
                 = (Normal tt, mkWorld None (listeners w0) (calls w0))).
  { unfold bind at 1. rewrite (mount_unregistered _ _ _ _ _ Hkeys).
    rewrite unmount_run.
    cbn [cameraRef listeners calls].
    rewrite (remove_all_appended _ _ (keyListeners_NoDup mode animated) Hkeys).
    cbv zeta.
    rewrite (remove_listener_absent _ _ Hupdate).
    rewrite (remove_listener_absent _ _ Hcontrol).
    now destruct (truthy controls). }
  split; [exact Hrun|].
  intros Hnull. rewrite Hrun. rewrite <- Hnull. now rewrite world_eta.
Qed.

Lemma mount_then_unmount_restores_listeners_witness :
  (cleanups <- mount (Some "pan"%string) (Some false)
                     (Some Samples.freshCamera) Samples.freshCamera ;;
   unmount cleanups) Samples.emptyWorld
    = (Normal tt, Samples.emptyWorld).
Proof.
  apply (mount_then_unmount_restores_listeners (Some "pan"%string)
           (Some false) (Some Samples.freshCamera) Samples.freshCamera
           Samples.emptyWorld); simpl; tauto.
Defined.

(** X15.  When the key listener effect runs again for changed props (its
    cleanup first, then the effect of the new render), the table holds the
    listeners of the new render in place of those of the old one, and
    every other listener is kept: no callback of the old render stays
    registered. *)
Theorem key_listener_effect_rerun_replaces_handlers
    (mode mode' : option string) (animated animated' : option bool)
    (w : World)
    (Hold : forall l, In l (keyListeners mode animated) ->
                      ~ In l (listeners w))
    (Hnew : forall l, In l (keyListeners mode' animated') ->
                      ~ In l (listeners w)) :
  (cleanup <- keyListenerEffect mode animated ;;
   cleanup ;;
   keyListenerEffect mode' animated') w
    = (Normal (keyListenerCleanup mode' animated'),
       mkWorld (cameraRef w)
               (listeners w ++ keyListeners mode' animated')
               (calls w)).
Proof.
  unfold bind.
  rewrite keyListenerEffect_run, keyListenerCleanup_run.
  rewrite keyListenerEffect_run.
  cbn [cameraRef listeners calls].
  rewrite (add_all_fresh _ _ (keyListeners_NoDup mode animated) Hold).
  rewrite (remove_all_appended _ _ (keyListeners_NoDup mode animated) Hold).
  rewrite (add_all_fresh _ _ (keyListeners_NoDup mode' animated') Hnew).
  reflexivity.
Qed.

Lemma key_listener_effect_rerun_replaces_handlers_witness :
  (cleanup <- keyListenerEffect (Some "rotate"%string) None ;;
   cleanup ;;
   keyListenerEffect (Some "pan"%string) (Some true)) Samples.mountedWorld
    = (Normal (keyListenerCleanup (Some "pan"%string) (Some true)),
       mkWorld (Some Samples.freshCamera)
               (keyListeners (Some "pan"%string) (Some true)) []).
Proof.
  apply (key_listener_effect_rerun_replaces_handlers
           (Some "rotate"%string) (Some "pan"%string) None (Some true)
           Samples.mountedWorld); intros l _ [].
Defined.

(** ** Hotkeys and a detached ref *)

Lemma hotkey_callback_detached (c : Call) (w : World) :
  cameraRef w = None ->
  (call PreventDefault ;; (withCamera (call c) ;; call Invalidate)) w
    = (Normal tt, logged w [PreventDefault; Invalidate]).
Proof.
  intros Hnull. unfold bind at 1. unfold call at 1.
  rewrite (camera_call_skipped c (logged w [PreventDefault]) Hnull).
  now rewrite logged_logged.
Qed.

(** X17.  While the camera ref is null, a frame calls nothing, a zoom
    hotkey still prevents the default and invalidates but calls no zoom,
    and an unmount runs to its end without calling [dispose] (and without
    throwing, the update/control cleanup having captured a non-null
    ref). *)
Theorem detached_ref_skips_camera_calls
    (mode : option string) (animated : option bool) (camera_zoom : float)
    (controls : option CameraControls) (ref : CameraControls)
    (delta : float) (event : Event) (w : World)
    (Hnull : cameraRef w = None) :
  onFrame delta w = (Normal tt, w) /\
  pressHotkey (hotkeys animated camera_zoom) "command+shift+i" event w
    = (Normal tt, logged w [PreventDefault; Invalidate]) /\
  pressHotkey (hotkeys animated camera_zoom) "command+shift+o" event w
    = (Normal tt, logged w [PreventDefault; Invalidate]) /\
  exists w2,
    unmount [disposeCleanup; keyListenerCleanup mode animated;
             controlListenerCleanup controls (Some ref)] w
      = (Normal tt, w2) /\
    cameraRef w2 = None /\
    calls w2 = calls w.
Proof.
  split; [exact (withCamera_null _ w Hnull)|].
  split; [|split].
  - change (pressHotkey (hotkeys animated camera_zoom) "command+shift+i"
              event w)
      with (((call PreventDefault ;; zoomIn animated camera_zoom) ;;
             (ret tt ;; ret tt)) w).
    unfold bind at 1. unfold zoomIn.
    now rewrite (hotkey_callback_detached _ w Hnull).
  - change (pressHotkey (hotkeys animated camera_zoom) "command+shift+o"
              event w)
      with ((ret tt ;;
             ((call PreventDefault ;; zoomOut animated camera_zoom) ;;
              ret tt)) w).
    unfold bind at 1. unfold ret at 1. unfold bind at 1. unfold zoomOut.
    now rewrite (hotkey_callback_detached _ w Hnull).
  - rewrite unmount_run. eexists. split; [reflexivity|].
    split; reflexivity.
Qed.

Lemma detached_ref_skips_camera_calls_witness :
  onFrame 0.016 Samples.emptyWorld = (Normal tt, Samples.emptyWorld) /\
  pressHotkey (hotkeys None 2) "command+shift+i" (mkEvent None None)
              Samples.emptyWorld
    = (Normal tt, logged Samples.emptyWorld [PreventDefault; Invalidate]).
Proof.
  pose proof (detached_ref_skips_camera_calls None None 2 None
                Samples.freshCamera 0.016 (mkEvent None None)
                Samples.emptyWorld eq_refl) as H.
  destruct H as [Hframe [Hin _]].
  split; [exact Hframe | exact Hin].
Defined.

End ControlsExtras.
